(** * lettersmith.util: a shallow embedding and its verified properties

    The module [lettersmith/util.py] is a toolkit of small combinators over
    "documents": Python dictionaries with string field names whose values
    are arbitrary Python objects.  This development embeds the functions of
    that module as Rocq functions and proves the properties its design
    document states about them.

    Python is dynamically typed, so the embedding works over one universe
    [value] of Python objects.  Raising an exception is modelled by the
    [result] monad; a generator is modelled by the list of items it yields
    before it either finishes or raises ([gen]).  The one function whose
    contract is about mutation ([replace_dict]) is modelled a second time
    over an explicit object store, in module [Store]. *)

From stdpp Require Import gmap strings list.
From Stdlib Require Import ZArith Ascii String Permutation Sorted.
From Stdlib Require OrdersEx.

#[local] Set Warnings "-register-all".

Local Open Scope string_scope.
Local Open Scope Z_scope.
Local Open Scope list_scope.

(** ** Python objects *)

(** The slice of Python's object universe the module is used with:
    [None], booleans, integers, strings, lists, tuples, dictionaries keyed
    by field name (in insertion order), and instances of user classes,
    which carry an identity and a table of attributes. *)
Inductive value : Type :=
| VNone
| VBool (b : bool)
| VInt (z : Z)
| VStr (s : string)
| VList (xs : list value)
| VTuple (xs : list value)
| VDict (kvs : list (string * value))
| VObj (oid : nat) (attrs : list (string * value)).

(** The exceptions the module can raise, directly or through a builtin. *)
Inductive exn : Type := TypeError | ValueError.

Inductive result (A : Type) : Type :=
| Ok (a : A)
| Raise (e : exn).
Arguments Ok {A} a.
Arguments Raise {A} e.

#[global] Instance result_ret : MRet result := fun _ a => Ok a.
#[global] Instance result_bind : MBind result := fun _ _ f m =>
  match m with
  | Ok a => f a
  | Raise e => Raise e
  end.

(** A generator, run to exhaustion: the items it yields, in order, and the
    exception that ended it, if one did. *)
Record gen (A : Type) : Type := Gen { yielded : list A; failure : option exn }.
Arguments Gen {A} yielded failure.
Arguments yielded {A} g.
Arguments failure {A} g.

(** ** Dictionaries as insertion-ordered association lists *)

Section Dict.
Context {V : Type}.

Fixpoint dict_lookup (k : string) (d : list (string * V)) : option V :=
  match d with
  | [] => None
  | (k', v) :: d' => if String.eqb k k' then Some v else dict_lookup k d'
  end.

(** [d[k] = v]: an existing key keeps its position, a new key goes last. *)
Fixpoint dict_set (k : string) (v : V) (d : list (string * V)) : list (string * V) :=
  match d with
  | [] => [(k, v)]
  | (k', v') :: d' =>
      if String.eqb k k' then (k, v) :: d' else (k', v') :: dict_set k v d'
  end.

(** [d.update(e)]: the entries of [e] are stored one by one, in order. *)
Definition dict_update (d e : list (string * V)) : list (string * V) :=
  fold_left (fun acc kv => dict_set kv.1 kv.2 acc) e d.
End Dict.

(** ** Equality, hashing *)

(** A boolean is an integer in Python: [True == 1] and [False == 0]. *)
Definition as_int (v : value) : option Z :=
  match v with
  | VBool b => Some (Z.b2z b)
  | VInt z => Some z
  | _ => None
  end.

(** [a == b] on the objects of [value].  Sequences compare element by
    element, dictionaries regardless of order, instances by identity. *)
Fixpoint py_eq (a b : value) : bool :=
  match a with
  | VNone => match b with VNone => true | _ => false end
  | VBool x =>
      match as_int b with Some y => Z.b2z x =? y | None => false end
  | VInt x =>
      match as_int b with Some y => x =? y | None => false end
  | VStr x => match b with VStr y => String.eqb x y | _ => false end
  | VList xs =>
      match b with
      | VList ys =>
          (fix go (xs ys : list value) : bool :=
             match xs, ys with
             | [], [] => true
             | x :: xs', y :: ys' => py_eq x y && go xs' ys'
             | _, _ => false
             end) xs ys
      | _ => false
      end
  | VTuple xs =>
      match b with
      | VTuple ys =>
          (fix go (xs ys : list value) : bool :=
             match xs, ys with
             | [], [] => true
             | x :: xs', y :: ys' => py_eq x y && go xs' ys'
             | _, _ => false
             end) xs ys
      | _ => false
      end
  | VDict xs =>
      match b with
      | VDict ys =>
          Nat.eqb (List.length xs) (List.length ys) &&
          (fix go (xs : list (string * value)) : bool :=
             match xs with
             | [] => true
             | (k, v) :: xs' =>
                 match dict_lookup k ys with
                 | Some w => py_eq v w
                 | None => false
                 end && go xs'
             end) xs
      | _ => false
      end
  | VObj i _ => match b with VObj j _ => Nat.eqb i j | _ => false end
  end.

(** Lists and dictionaries cannot be hashed, nor can a tuple holding one. *)
Fixpoint hashable (v : value) : bool :=
  match v with
  | VList _ | VDict _ => false
  | VTuple xs =>
      (fix go (xs : list value) : bool :=
         match xs with
         | [] => true
         | x :: xs' => hashable x && go xs'
         end) xs
  | _ => true
  end.

(** ** The accessors *)

(** [get_dict]: [d.get(key, default)].  Hashing an unhashable key raises;
    a hashable key that is not a field name is simply absent. *)
Definition get_dict (d : list (string * value)) (key default : value) : result value :=
  if hashable key then
    match key with
    | VStr k =>
        match dict_lookup k d with
        | Some v => Ok v
        | None => Ok default
        end
    | _ => Ok default
    end
  else Raise TypeError.

(** [get]: single dispatch on the type of [x].  Only [dict] is registered;
    the generic implementation raises [TypeError]. *)
Definition get (x key default : value) : result value :=
  match x with
  | VDict d => get_dict d key default
  | _ => Raise TypeError
  end.

(** [s.split(".")], for any one-character separator. *)
Fixpoint split_on (sep : ascii) (s : string) : list string :=
  match s with
  | EmptyString => [EmptyString]
  | String c s' =>
      if Ascii.eqb c sep then EmptyString :: split_on sep s'
      else
        match split_on sep s' with
        | [] => [String c EmptyString]
        | w :: ws => String c w :: ws
        end
  end.

(** [tuple(x)]: the items of an iterable. *)
Definition py_tuple (x : value) : result (list value) :=
  match x with
  | VList xs | VTuple xs => Ok xs
  | VDict kvs => Ok (map (fun kv => VStr kv.1) kvs)
  | VStr s => Ok (map (fun c => VStr (String c EmptyString)) (list_ascii_of_string s))
  | _ => Raise TypeError
  end.

(** [keys = key.split(".") if type(key) is str else tuple(key)] *)
Definition key_path (key : value) : result (list value) :=
  match key with
  | VStr s => Ok (map VStr (split_on "." s))
  | _ => py_tuple key
  end.

(** The [for key in keys] loop of [get_deep]. *)
Fixpoint get_deep_loop (d : value) (keys : list value) (default : value) : result value :=
  match keys with
  | [] => Ok d
  | key :: keys' =>
      d' ← get d key VNone;
      if py_eq d' VNone then Ok default else get_deep_loop d' keys' default
  end.

Definition get_deep (d key default : value) : result value :=
  keys ← key_path key;
  get_deep_loop d keys default.

(** ** Update combinators *)

(** Passing [**kwargs] to a function whose positional parameter is named
    [param]: a keyword of that name would give the parameter a second
    value, and the call raises [TypeError] before the body runs. *)
Definition bind_kwargs {V : Type} (param : string) (kwargs : list (string * V)) :
    result (list (string * V)) :=
  match dict_lookup param kwargs with
  | Some _ => Raise TypeError
  | None => Ok kwargs
  end.

(** [replace_dict(d, **kwargs)]: [e = d.copy(); e.update(kwargs); return e].
    On [value] a dictionary is its entries, so the copy is the entry list
    itself; the module [Store] below models the same function over
    mutable objects. *)
Definition replace_dict (d kwargs : list (string * value)) : result (list (string * value)) :=
  kwargs ← bind_kwargs "d" kwargs;
  let e := d in
  Ok (dict_update e kwargs).

(** [replace]: single dispatch again, with [dict] the one registered
    type; the keywords are handed on to the implementation chosen. *)
Definition replace (x : value) (kwargs : list (string * value)) : result value :=
  match x with
  | VDict d => e ← replace_dict d kwargs; Ok (VDict e)
  | _ => Raise TypeError
  end.

(** [merge]: both arguments are poured into a fresh dictionary. *)
Definition merge (a b : list (string * value)) : list (string * value) :=
  let d := [] in
  let d := dict_update d a in
  dict_update d b.

(** [**x] at a call site: [x] has to be a mapping. *)
Definition as_kwargs (x : value) : result (list (string * value)) :=
  match x with
  | VDict d => Ok d
  | _ => Raise TypeError
  end.

(** ** Generic combinators *)

Definition compose2 {A B C : Type} (f : B -> C) (e : A -> B) : A -> C :=
  fun x => f (e x).

(** [reduce(compose2, fns, fn)] is a left fold seeded with [fn]. *)
Definition compose {A : Type} (fn : A -> A) (fns : list (A -> A)) : A -> A :=
  fold_left compose2 fns fn.

Definition len {A : Type} (xs : list A) : Z := Z.of_nat (List.length xs).

(** The loop of [chunk], with the batch under construction as an argument;
    what remains after the loop is yielded when it is not empty. *)
Fixpoint chunk_loop {A : Type} (n : Z) (chunk : list A) (iterable : list A) : list (list A) :=
  match iterable with
  | [] => if 0 <? len chunk then [chunk] else []
  | x :: rest =>
      let chunk := chunk ++ [x] in
      if len chunk =? n then chunk :: chunk_loop n [] rest
      else chunk_loop n chunk rest
  end.

Definition chunk {A : Type} (iterable : list A) (n : Z) : list (list A) :=
  chunk_loop n [] iterable.

(** ** Filtering with a predicate that may raise *)

(** [(x for x in xs if p(x))], and equally a [for]/[if]/[yield] loop: the
    items accepted so far have been yielded when [p] raises. *)
Fixpoint gen_filter {A : Type} (p : A -> result bool) (xs : list A) : gen A :=
  match xs with
  | [] => Gen [] None
  | x :: xs' =>
      match p x with
      | Raise e => Gen [] (Some e)
      | Ok b =>
          let g := gen_filter p xs' in
          Gen (if b then x :: yielded g else yielded g) (failure g)
      end
  end.

(** [tuple(x for x in xs if p(x))]: all or nothing. *)
Fixpoint tuple_filter {A : Type} (p : A -> result bool) (xs : list A) : result (list A) :=
  match xs with
  | [] => Ok []
  | x :: xs' =>
      b ← p x;
      rest ← tuple_filter p xs';
      Ok (if b : bool then x :: rest else rest)
  end.

(** [tuple(f(x) for x in xs)] *)
Fixpoint tuple_map {A B : Type} (f : A -> result B) (xs : list A) : result (list B) :=
  match xs with
  | [] => Ok []
  | x :: xs' =>
      y ← f x;
      rest ← tuple_map f xs';
      Ok (y :: rest)
  end.

(** ** Matching on [id_path] *)

Section Matching.
(** [fnmatch.fnmatchcase] of Python's standard library, on two strings:
    does the name match the shell-style pattern?  The functions below
    do not depend on how it decides. *)
Variable fnmatchcase : string -> string -> bool.

(** [fnmatch.fnmatch] normalises both arguments with [os.path.normcase],
    which raises [TypeError] on anything that is not a path-like string. *)
Definition fnmatch (name pat : value) : result bool :=
  match name with
  | VStr n =>
      match pat with
      | VStr p => Ok (fnmatchcase n p)
      | _ => Raise TypeError
      end
  | _ => Raise TypeError
  end.

(** [fnmatch(get(x, "id_path"), match) if match != "*" else True] *)
Definition id_path_matches (x match_ : value) : result bool :=
  if negb (py_eq match_ (VStr "*")) then
    name ← get x (VStr "id_path") VNone;
    fnmatch name match_
  else Ok true.

Definition match_by_id_path (docs : list value) (match_ : value) : gen value :=
  gen_filter (fun doc => id_path_matches doc match_) docs.
End Matching.

(** ** The grouping decorator *)

Section Grouping.
Context {R : Type}.
Variable predicate : value -> value -> result bool.
Variable f : list value -> list (string * value) -> result R.

(** One turn of the loop over [groups.items()]: select, merge the
    configuration over the defaults, call [f]. *)
Definition group_step (items : list value) (defaults : value)
    (pattern : string) (kwargs : value) : result R :=
  matches ← tuple_filter (fun item => predicate item (VStr pattern)) items;
  kw ← as_kwargs kwargs;
  merged ← replace defaults kw;
  conf ← as_kwargs merged;
  f matches conf.

Fixpoint group_loop (items : list value) (defaults : value)
    (groups : list (string * value)) : gen R :=
  match groups with
  | [] => Gen [] None
  | (pattern, kwargs) :: groups' =>
      match group_step items defaults pattern kwargs with
      | Raise e => Gen [] (Some e)
      | Ok r =>
          let g := group_loop items defaults groups' in
          Gen (r :: yielded g) (failure g)
      end
  end.

(** [decorate_group_matching(predicate)(f)], that is [f_match_group]. *)
Definition decorate_group_matching (iter : list value)
    (groups : list (string * value)) (defaults : value) : gen R :=
  let items := iter in
  group_loop items defaults groups.
End Grouping.

Definition decorate_group_matching_id_path {R : Type}
    (fnmatchcase : string -> string -> bool) :=
  @decorate_group_matching R (id_path_matches fnmatchcase).

(** ** Membership predicates and queries *)

Definition _EMPTY_TUPLE : value := VTuple [].

Fixpoint substringb (sub s : string) : bool :=
  String.prefix sub s ||
  match s with
  | EmptyString => false
  | String _ s' => substringb sub s'
  end.

(** [value in collection] *)
Definition py_in (v collection : value) : result bool :=
  match collection with
  | VList xs | VTuple xs => Ok (existsb (fun x => py_eq x v) xs)
  | VDict kvs =>
      if hashable v then
        match v with
        | VStr k => Ok (bool_decide (is_Some (dict_lookup k kvs)))
        | _ => Ok false
        end
      else Raise TypeError
  | VStr s =>
      match v with
      | VStr sub => Ok (substringb sub s)
      | _ => Raise TypeError
      end
  | _ => Raise TypeError
  end.

Fixpoint any_in_loop (collection : value) (values : list value) : result bool :=
  match values with
  | [] => Ok false
  | v :: values' =>
      b ← py_in v collection;
      if b : bool then Ok true else any_in_loop collection values'
  end.

Definition any_in (collection values : value) : result bool :=
  vs ← py_tuple values;
  any_in_loop collection vs.

Definition contains (x key v : value) : result bool :=
  c ← get_deep x key _EMPTY_TUPLE;
  py_in v c.

Definition has_key (x key : value) : result bool :=
  v ← get_deep x key VNone;
  Ok (negb (py_eq v VNone)).

Definition where_ (dicts : list value) (key v : value) : gen value :=
  gen_filter (fun x => w ← get_deep x key VNone; Ok (py_eq w v)) dicts.

Definition where_contains (dicts : list value) (key v : value) : gen value :=
  gen_filter (fun x => contains x key v) dicts.

Definition where_contains_any (dicts : list value) (key terms : value) : gen value :=
  gen_filter (fun x => c ← get_deep x key _EMPTY_TUPLE; any_in c terms) dicts.

(** ** Sorting *)

(** [a < b].  Numbers order among themselves, strings among themselves,
    and two sequences of the same kind at their first unequal position, or
    by length when one is a prefix of the other.  Everything else is not
    orderable and raises [TypeError]. *)
Fixpoint py_lt (a b : value) : result bool :=
  match a with
  | VBool _ | VInt _ =>
      match as_int a, as_int b with
      | Some x, Some y => Ok (x <? y)
      | _, _ => Raise TypeError
      end
  | VStr x => match b with VStr y => Ok (String.ltb x y) | _ => Raise TypeError end
  | VList xs =>
      match b with
      | VList ys =>
          (fix go (xs ys : list value) : result bool :=
             match xs, ys with
             | [], [] => Ok false
             | [], _ :: _ => Ok true
             | _ :: _, [] => Ok false
             | x :: xs', y :: ys' => if py_eq x y then go xs' ys' else py_lt x y
             end) xs ys
      | _ => Raise TypeError
      end
  | VTuple xs =>
      match b with
      | VTuple ys =>
          (fix go (xs ys : list value) : result bool :=
             match xs, ys with
             | [], [] => Ok false
             | [], _ :: _ => Ok true
             | _ :: _, [] => Ok false
             | x :: xs', y :: ys' => if py_eq x y then go xs' ys' else py_lt x y
             end) xs ys
      | _ => Raise TypeError
      end
  | _ => Raise TypeError
  end.

(** The builtin [sorted(items, key=fkey, reverse=reverse)].  The keys are
    computed first, once per item.  CPython then runs a stable merge sort
    on the keys with [<]; the model is the stable insertion sort, which
    returns the same list whenever [<] orders the keys.  With
    [reverse=True] the list is reversed before and after, which keeps
    items with equal keys in their original order. *)
Fixpoint sort_insert {A : Type} (p : value * A) (l : list (value * A)) : result (list (value * A)) :=
  match l with
  | [] => Ok [p]
  | q :: l' =>
      b ← py_lt q.1 p.1;
      if b : bool then rest ← sort_insert p l'; Ok (q :: rest)
      else Ok (p :: q :: l')
  end.

Fixpoint sort_keyed {A : Type} (l : list (value * A)) : result (list (value * A)) :=
  match l with
  | [] => Ok []
  | p :: l' => s ← sort_keyed l'; sort_insert p s
  end.

Definition sorted {A : Type} (items : list A) (fkey : A -> result value) (reverse : bool) : result (list A) :=
  keys ← tuple_map fkey items;
  let keyed := zip keys items in
  s ← sort_keyed (if reverse then rev keyed else keyed);
  Ok (map snd (if reverse then rev s else s)).

(** [sort_by]: one key path, one default. *)
Definition sort_by (dicts_iter : list value) (key default : value) (reverse : bool) : result (list value) :=
  let fkey := fun x => get_deep x key default in
  sorted dicts_iter fkey reverse.

(** [a is b] for two integers that were each just computed, as [len]
    does: CPython keeps one object for each integer from -5 to 256 and
    allocates a new object for any other, so two results are the same
    object exactly when they are equal and in that range. *)
Definition small_int (a : Z) : bool := (-5 <=? a) && (a <=? 256).

Definition int_is (a b : Z) : bool := (a =? b) && small_int a.

(** [sort_by_keys]: the guard is written with [is not]. *)
Definition sort_by_keys (dicts_iter keys defaults : list value) (reverse : bool) : result (list value) :=
  let dicts_tuple := dicts_iter in
  let keys_tuple := keys in
  let defaults_tuple := defaults in
  if negb (int_is (len defaults_tuple) (len keys_tuple)) then Raise ValueError
  else
    let fkey := fun d =>
      vs ← tuple_map (fun kd => get_deep d kd.1 kd.2) (zip keys_tuple defaults_tuple);
      Ok (VTuple vs) in
    sorted dicts_tuple fkey reverse.

(** A matcher for patterns built from literal characters, [?] and [*],
    to run the functions of section [Matching] on examples. *)
Fixpoint glob_match (name pat : string) {struct pat} : bool :=
  match pat with
  | EmptyString => match name with EmptyString => true | _ => false end
  | String c pat' =>
      if Ascii.eqb c "*" then
        (fix star (n : string) : bool :=
           glob_match n pat' ||
           match n with
           | EmptyString => false
           | String _ n' => star n'
           end) name
      else
        match name with
        | EmptyString => false
        | String d name' => (Ascii.eqb c "?" || Ascii.eqb c d) && glob_match name' pat'
        end
  end.

(** ** The documented accessor *)

(** [getattr(x, key, default)] on an instance. *)
Definition py_getattr (attrs : list (string * value)) (key default : value) : result value :=
  match key with
  | VStr k =>
      match dict_lookup k attrs with
      | Some v => Ok v
      | None => Ok default
      end
  | _ => Raise TypeError
  end.

(** The accessor as its docstring and the design document describe it:
    key lookup on a dictionary, attribute lookup on an attribute-bearing
    object, an error on anything else. *)
Definition get_documented (x key default : value) : result value :=
  match x with
  | VDict d => get_dict d key default
  | VObj _ attrs => py_getattr attrs key default
  | _ => Raise TypeError
  end.

(** ** Following a key path *)

(** [steps d keys x]: looking up [keys] one after the other, starting from
    [d], never raises, never meets [None], and ends at [x]. *)
Inductive steps : value -> list value -> value -> Prop :=
| steps_nil d : steps d [] d
| steps_cons d key d' keys x :
    get d key VNone = Ok d' ->
    py_eq d' VNone = false ->
    steps d' keys x ->
    steps d (key :: keys) x.

(** The values Python treats as false although they are not [None]. *)
Definition falsy (x : value) : Prop :=
  x = VInt 0 \/ x = VBool false \/ x = VStr "" \/
  x = VList [] \/ x = VTuple [] \/ x = VDict [].

(** ** Dictionaries as mutable objects *)

Module Store.
Definition loc := positive.

(** A field holds an immediate value or a reference to an object. *)
Inductive sval : Type :=
| SNone
| SBool (b : bool)
| SInt (z : Z)
| SStr (s : string)
| SRef (l : loc).

(** The mutable objects: dictionaries and lists. *)
Inductive obj : Type :=
| ODict (entries : list (string * sval))
| OList (items : list sval).

Abbreviation store := (gmap loc obj).

Definition dict_at (h : store) (d : loc) : option (list (string * sval)) :=
  match h !! d with
  | Some (ODict entries) => Some entries
  | _ => None
  end.

(** [d.copy()]: a new dictionary object with the entries of [d]; the
    objects the entries refer to are shared, not copied. *)
Definition dict_copy (h : store) (d : loc) : option (store * loc) :=
  entries ← dict_at h d;
  let e := fresh (dom h) in
  Some (<[e := ODict entries]> h, e).

(** [e.update(kwargs)]: the object at [e] is changed in place. *)
Definition dict_update_at (h : store) (e : loc) (kwargs : list (string * sval)) : option store :=
  entries ← dict_at h e;
  Some (<[e := ODict (dict_update entries kwargs)]> h).

(** [replace_dict(d, **kwargs)], the implementation registered for
    [dict]: [d] refers to a dictionary of the store.  The keywords are
    bound first, so a keyword named [d] raises before anything is
    allocated. *)
Definition replace_dict (h : store) (d : loc) (kwargs : list (string * sval)) : result (store * loc) :=
  kwargs ← bind_kwargs "d" kwargs;
  match dict_copy h d with
  | Some (h, e) =>
      match dict_update_at h e kwargs with
      | Some h => Ok (h, e)
      | None => Raise TypeError
      end
  | None => Raise TypeError
  end.

(** [replace(x, **kwargs)]: dispatch on the class of the object [x]
    refers to; only a dictionary reaches [replace_dict]. *)
Definition replace (h : store) (x : sval) (kwargs : list (string * sval)) : result (store * sval) :=
  match x with
  | SRef d =>
      match dict_at h d with
      | Some _ =>
          match replace_dict h d kwargs with
          | Ok (h, e) => Ok (h, SRef e)
          | Raise e => Raise e
          end
      | None => Raise TypeError
      end
  | _ => Raise TypeError
  end.

(** [merge(a, b)]: [d = {}; d.update(a); d.update(b); return d], for two
    dictionaries of the store (which may be one and the same). *)
Definition merge (h : store) (a b : loc) : option (store * loc) :=
  let d := fresh (dom h) in
  let h := <[d := ODict []]> h in
  ea ← dict_at h a;
  h ← dict_update_at h d ea;
  eb ← dict_at h b;
  h ← dict_update_at h d eb;
  Some (h, d).
End Store.

(** ** Auxiliary notions for the statements *)

(** A string in which the separator does not occur. *)
Fixpoint sep_free (sep : ascii) (s : string) : bool :=
  match s with
  | EmptyString => true
  | String c s' => negb (Ascii.eqb c sep) && sep_free sep s'
  end.

(** [all_but_last P l]: every element of [l] except the last satisfies [P]. *)
Definition all_but_last {A : Type} (P : A -> Prop) (l : list A) : Prop :=
  forall init x, l = init ++ [x] -> Forall P init.

(** Example documents. *)
Definition doc_ab : value :=
  VDict [("a", VDict [("b", VInt 0); ("c", VNone)])].

Definition doc_untitled : value := VDict [("title", VStr "About")].

Definition obj_titled : value := VObj 1 [("title", VStr "Hello")].

(** The items of the list or tuple found at a key path; no items when the
    path is absent. *)
Definition items_at (d key : value) : list value :=
  match get_deep d key _EMPTY_TUPLE with
  | Ok (VList xs) | Ok (VTuple xs) => xs
  | _ => []
  end.

Definition is_sequence (r : result value) : Prop :=
  exists xs, r = Ok (VList xs) \/ r = Ok (VTuple xs).

(** Does the sequence [xs] hold one of [ts]? *)
Definition shares (xs ts : list value) : bool :=
  existsb (fun t => existsb (fun x => py_eq x t) xs) ts.

(** A dictionary, embedded as a [value]; a group specification, embedded
    as the items of a dictionary of dictionaries. *)
Definition group_items (gs : list (string * list (string * value))) : list (string * value) :=
  map (fun g => (g.1, VDict g.2)) gs.

(** Example store: a document with a nested dictionary. *)
Definition store_ex : gmap Store.loc Store.obj :=
  {[ 1%positive := Store.ODict [("title", Store.SStr "Home"); ("meta", Store.SRef 2%positive)];
     2%positive := Store.ODict [("draft", Store.SBool true)] ]}.

(** A pure predicate and a reducer to run the grouping decorator on
    examples: match by [id_path], with an error counting as no match, and
    return the selected documents together with the keyword arguments. *)
Definition matches_or_false (d pat : value) : bool :=
  match id_path_matches glob_match d pat with
  | Ok b => b
  | Raise _ => false
  end.

Definition collect (matches : list value) (conf : list (string * value)) :
    list value * list (string * value) :=
  (matches, conf).

Definition doc_post : value := VDict [("id_path", VStr "posts/a.md")].
Definition doc_index : value := VDict [("id_path", VStr "index.md")].

Definition groups_ex : list (string * list (string * value)) :=
  [("posts/*", [("tag", VStr "post")]); ("*", [("tag", VStr "page")])].

Definition doc_tagged_xz : value := VDict [("tags", VList [VStr "x"; VStr "z"])].
Definition doc_tagged_q : value := VDict [("tags", VTuple [VStr "q"])].

(** A computation that does not end in [ValueError]. *)
Definition no_value_error {A : Type} (r : result A) : Prop :=
  r <> Raise ValueError.

(** Documents with a weight and a date, as in the design document. *)
Definition doc_wd (name : string) (w : Z) (date : string) : value :=
  VDict [("name", VStr name); ("weight", VInt w); ("date", VStr date)].

Definition docs_wd : list value :=
  [doc_wd "c" 2 "2020-01-01"; doc_wd "a" 1 "2021-05-05";
   VDict [("name", VStr "n")];
   doc_wd "b" 1 "2019-03-03"; doc_wd "d" 1 "2021-05-05"].

(** A function that records its call: the argument is paired with the
    names of the functions called so far. *)
Definition logged {A : Type} (name : string) (f : A -> A) (xl : A * list string) :
    A * list string :=
  (f xl.1, xl.2 ++ [name]).

(** ** Orders on sort keys *)

(** [key_le a b]: [b < a] is evaluated and is false, that is, [a] may
    stand before [b] in a sorted list. *)
Definition key_le (a b : value) : Prop := py_lt b a = Ok false.

(** Two keys neither of which is below the other. *)
Definition key_eqv (a b : value) : bool :=
  match py_lt a b, py_lt b a with
  | Ok false, Ok false => true
  | _, _ => false
  end.

(** A set of keys that [<] orders: comparisons never raise, and [<] is a
    strict weak order on the set. *)
Record orderable (K : value -> Prop) : Prop := {
  ord_total : forall a b, K a -> K b -> exists c, py_lt a b = Ok c;
  ord_asym : forall a b, K a -> K b -> py_lt a b = Ok true -> py_lt b a = Ok false;
  ord_trans : forall a b c, K a -> K b -> K c ->
    key_le a b -> key_le b c -> key_le a c;
  ord_eqv : forall a b k, K a -> K b -> K k ->
    key_eqv a k = true -> key_eqv b k = true -> py_lt a b = Ok false
}.

(** The keys that are integers (booleans included). *)
Definition is_number (v : value) : Prop := exists z, as_int v = Some z.

(** [in_order kf reverse a b]: with keys given by [kf], [a] may stand
    before [b] in the result of a sort. *)
Definition in_order {A : Type} (kf : A -> value) (reverse : bool) (a b : A) : Prop :=
  if reverse then key_le (kf b) (kf a) else key_le (kf a) (kf b).

(** Tuples of numbers, and the lexicographic order on their contents. *)
Definition number_tuple (v : value) : Prop :=
  exists zs : list Z, v = VTuple (map VInt zs).

Fixpoint lex_ltb (xs ys : list Z) : bool :=
  match xs, ys with
  | [], [] => false
  | [], _ :: _ => true
  | _ :: _, [] => false
  | x :: xs', y :: ys' => if x =? y then lex_ltb xs' ys' else x <? y
  end.

(** The composite key [sort_by_keys] computes for a document, when every
    lookup succeeds. *)
Definition composite_key (keys defaults : list value) (d : value) : result value :=
  vs ← tuple_map (fun kd => get_deep d kd.1 kd.2) (zip keys defaults);
  Ok (VTuple vs).

(** The composite key as a total function, for documents on which it is
    known to be computed without error. *)
Definition composite_key_of (keys defaults : list value) (d : value) : value :=
  match composite_key keys defaults d with
  | Ok k => k
  | Raise _ => VNone
  end.

Definition docs_weighted : list value :=
  [VDict [("weight", VInt 2)]; VDict []; VDict [("weight", VInt 1)]].

(** ** Further notions for the statements *)

(** The keys of a dictionary, in insertion order. *)
Definition dict_keys {V : Type} (d : list (string * V)) : list string := map fst d.

(** A dictionary holds each key once. *)
Definition dict_wf {V : Type} (d : list (string * V)) : Prop := List.NoDup (dict_keys d).

Definition store_two : gmap Store.loc Store.obj :=
  {[ 1%positive := Store.ODict [("title", Store.SStr "Home"); ("lang", Store.SStr "en")];
     2%positive := Store.ODict [("title", Store.SStr "Start")] ]}.

Definition dict_home : list (string * value) :=
  [("title", VStr "Home"); ("lang", VStr "en")].

Definition dict_start : list (string * value) :=
  [("draft", VBool true); ("title", VStr "Start")].

(** ** The other queries *)

Definition where_not (dicts : list value) (key v : value) : gen value :=
  gen_filter (fun x => w ← get_deep x key VNone; Ok (negb (py_eq w v))) dicts.

Definition where_key (dicts : list value) (key : value) : gen value :=
  gen_filter (fun x => has_key x key) dicts.

Definition where_not_key (dicts : list value) (key : value) : gen value :=
  gen_filter (fun x => b ← has_key x key; Ok (negb b)) dicts.

(** [where_matches], with the matcher of [fnmatch] as a parameter, as in
    section [Matching]. *)
Definition where_matches (fnmatchcase : string -> string -> bool)
    (dicts : list value) (key glob : value) : gen value :=
  gen_filter (fun x => name ← get_deep x key VNone; fnmatch fnmatchcase name glob) dicts.

(** A generator expression whose input is itself a generator: the items
    the input yields are tested in order; an exception of the test ends
    the expression at once, and an exception of the input ends it when
    the items before it have been tested. *)
Definition gen_filter_from {A : Type} (p : A -> result bool) (g : gen A) : gen A :=
  let r := gen_filter p (yielded g) in
  Gen (yielded r)
      (match failure r with
       | Some e => Some e
       | None => failure g
       end).

(** [where], reading from a generator. *)
Definition where_from (dicts : gen value) (key v : value) : gen value :=
  gen_filter_from (fun x => w ← get_deep x key VNone; Ok (py_eq w v)) dicts.

(** The value [get_deep] finds at a key path, [None] when it finds none
    or raises; the string found there, if it is one. *)
Definition value_at (d key : value) : value :=
  match get_deep d key VNone with
  | Ok w => w
  | Raise _ => VNone
  end.

Definition string_at (d key : value) : option string :=
  match get_deep d key VNone with
  | Ok (VStr s) => Some s
  | _ => None
  end.

Definition doc_a1 : value := VDict [("a", VInt 1); ("tags", VStr "abc")].
Definition doc_a2 : value := VDict [("a", VInt 2)].

(** ** Sorting the items of a dictionary *)

Definition _first {A B : Type} (pair : A * B) : A := pair.1.

(** [sort_items_by_key]: [sorted(dict.items(), key=_first, reverse=reverse)];
    the first component of an item is its key, a string. *)
Definition sort_items_by_key (dict : list (string * value)) (reverse : bool) :
    result (list (string * value)) :=
  sorted dict (fun pair => Ok (VStr (_first pair))) reverse.

(** The keys that are strings. *)
Definition is_string (v : value) : Prop := exists s, v = VStr s.

(** The number [get_deep] finds at a key path, with a default; 0 when it
    finds no number. *)
Definition number_at (key default d : value) : Z :=
  match get_deep d key default with
  | Ok w => match as_int w with Some z => z | None => 0 end
  | Raise _ => 0
  end.

Definition found_at (key default d : value) : value :=
  match get_deep d key default with
  | Ok w => w
  | Raise _ => VNone
  end.

(** ** The remaining combinators *)

(** [id]: the identity function. *)
Definition id {A : Type} (x : A) : A := x.

(** [(f(x) for x in xs)]: the results so far have been yielded when [f]
    raises. *)
Fixpoint gen_map {A B : Type} (f : A -> result B) (xs : list A) : gen B :=
  match xs with
  | [] => Gen [] None
  | x :: xs' =>
      match f x with
      | Raise e => Gen [] (Some e)
      | Ok y =>
          let g := gen_map f xs' in
          Gen (y :: yielded g) (failure g)
      end
  end.

(** The same expression over an input that is itself a generator. *)
Definition gen_map_from {A B : Type} (f : A -> result B) (g : gen A) : gen B :=
  let r := gen_map f (yielded g) in
  Gen (yielded r)
      (match failure r with
       | Some e => Some e
       | None => failure g
       end).

(** [lift_iter(f)], that is [f_iter]: the extra arguments are passed on
    to every call of [f]. *)
Definition lift_iter {A B Args : Type} (f : A -> Args -> result B)
    (iter : list A) (args : Args) : gen B :=
  gen_map (fun x => f x args) iter.

Definition lift_iter_from {A B Args : Type} (f : A -> Args -> result B)
    (iter : gen A) (args : Args) : gen B :=
  gen_map_from (fun x => f x args) iter.

(** Where a generator stands after some items have been requested: at a
    [yield], with the part of the input it has not read; at its end; or
    ended by an exception. *)
Inductive gen_state (A : Type) : Type :=
| Suspended (rest : list A)
| Finished
| Failed (e : exn).
Arguments Suspended {A} rest.
Arguments Finished {A}.
Arguments Failed {A} e.

(** [tap_each(f, iter)], asked for [n] items.  The side effect of [f] is a
    change of a state [S]; a call of [f] returns the new state and the
    exception it raised, if any.  Each request runs the loop up to the
    next [yield]: it reads an item, calls [f] on it and yields it. *)
Fixpoint tap_each {A S : Type} (f : A -> S -> S * option exn)
    (n : nat) (iter : list A) (s : S) : list A * S * gen_state A :=
  match n with
  | O => ([], s, Suspended iter)
  | Datatypes.S n' =>
      match iter with
      | [] => ([], s, Finished)
      | x :: rest =>
          let '(s', raised) := f x s in
          match raised with
          | Some e => ([], s', Failed e)
          | None =>
              let '(ys, s'', st) := tap_each f n' rest s' in
              (x :: ys, s'', st)
          end
      end
  end.

(** The state after the side effects for the items [ys], in order. *)
Definition effects {A S : Type} (f : A -> S -> S * option exn) (ys : list A) (s : S) : S :=
  fold_left (fun s x => (f x s).1) ys s.

(** A side effect to run [tap_each] on examples: log the item, and
    refuse negative items. *)
Definition log_item (x : Z) (log : list Z) : list Z * option exn :=
  if x <? 0 then (log, Some ValueError) else (log ++ [x], None).

(** The [id_path] of a document, when it is a string. *)
Definition id_path_of (d : value) : option string :=
  match get d (VStr "id_path") VNone with
  | Ok (VStr s) => Some s
  | _ => None
  end.

(** Does a document with a string [id_path] belong to the group of a
    pattern? *)
Definition in_group (fnmatchcase : string -> string -> bool) (pattern : string) (d : value) : bool :=
  if String.eqb pattern "*" then true
  else
    match id_path_of d with
    | Some s => fnmatchcase s pattern
    | None => false
    end.

(** The generator that yields the results of a list of calls, in order,
    and ends with the exception of the first call that raises. *)
Fixpoint gen_results {R : Type} (rs : list (result R)) : gen R :=
  match rs with
  | [] => Gen [] None
  | Ok r :: rs' =>
      let g := gen_results rs' in
      Gen (r :: yielded g) (failure g)
  | Raise e :: _ => Gen [] (Some e)
  end.

(** [quiet f ys s]: called on the items [ys] in order, starting in state
    [s], [f] raises on none of them. *)
Fixpoint quiet {A S : Type} (f : A -> S -> S * option exn) (ys : list A) (s : S) : Prop :=
  match ys with
  | [] => True
  | y :: ys' => (f y s).2 = None /\ quiet f ys' (f y s).1
  end.

(** * Properties *)

(** ** The deep accessor *)

Lemma py_eq_none (x : value) : py_eq x VNone = true <-> x = VNone.
Proof.
  split.
  - destruct x; simpl; try discriminate; reflexivity.
  - intros ->. reflexivity.
Qed.

Lemma falsy_not_none (x : value) : falsy x -> py_eq x VNone = false.
Proof.
  unfold falsy. intros H.
  repeat (destruct H as [H | H]; [subst x; reflexivity |]).
  subst x. reflexivity.
Qed.

Lemma get_deep_loop_cons (d key : value) (keys : list value) (default : value) :
  get_deep_loop d (key :: keys) default =
    (d' ← get d key VNone;
     if py_eq d' VNone then Ok default else get_deep_loop d' keys default).
Proof. reflexivity. Qed.

(** The loop, once a prefix of the path has been followed. *)
Lemma get_deep_loop_app (d x : value) (pre post : list value) (default : value) :
  steps d pre x ->
  get_deep_loop d (pre ++ post) default = get_deep_loop x post default.
Proof.
  induction 1 as [d | d key d' keys x Hget Hnn _ IH]; simpl.
  - reflexivity.
  - rewrite Hget. simpl. rewrite Hnn. exact IH.
Qed.

Lemma get_deep_loop_steps (d x : value) (keys : list value) (default : value) :
  steps d keys x -> get_deep_loop d keys default = Ok x.
Proof.
  intros H. rewrite <- (app_nil_r keys).
  rewrite (get_deep_loop_app _ _ _ _ _ H). reflexivity.
Qed.

Lemma get_deep_loop_stop (d x key : value) (pre post : list value) (default : value) :
  steps d pre x ->
  get x key VNone = Ok VNone ->
  get_deep_loop d (pre ++ key :: post) default = Ok default.
Proof.
  intros H Hget. rewrite (get_deep_loop_app _ _ _ _ _ H).
  simpl. rewrite Hget. reflexivity.
Qed.

Lemma get_deep_key_path (d key default : value) (keys : list value) :
  key_path key = Ok keys ->
  get_deep d key default = get_deep_loop d keys default.
Proof. unfold get_deep. intros ->. reflexivity. Qed.

(** A field that is missing from a dictionary reads as [None]. *)
Lemma get_missing (kvs : list (string * value)) (k : string) :
  dict_lookup k kvs = None -> get (VDict kvs) (VStr k) VNone = Ok VNone.
Proof. simpl. unfold get_dict. simpl. intros ->. reflexivity. Qed.

Lemma get_present (kvs : list (string * value)) (k : string) (v default : value) :
  dict_lookup k kvs = Some v -> get (VDict kvs) (VStr k) default = Ok v.
Proof. simpl. unfold get_dict. simpl. intros ->. reflexivity. Qed.

(** A value that is not [None] does not stop the walk, falsy or not: the
    next key is looked up in it.  In an empty dictionary that lookup finds
    nothing; on a value that is not a dictionary, [get] raises. *)
Example get_deep_through_falsy :
  get_deep (VDict [("a", VDict [])]) (VStr "a.b") (VInt 7) = Ok (VInt 7) /\
  get_deep (VDict [("a", VInt 0)]) (VStr "a.b") (VInt 7) = Raise TypeError /\
  get_deep (VDict [("a", VInt 0)]) (VStr "a") (VInt 7) = Ok (VInt 0).
Proof. repeat split. Qed.

(** C1. [get_deep] walks the key path with [get], passing [None] as the
    default of every step.  The walk stops exactly when a step yields
    [None] (and nothing but [None] compares equal to [None]): the result is
    then the caller's default, whatever keys remain.  A path that is
    followed to its end returns the value found there, and in particular
    [0], [False], the empty string and the empty containers are returned
    as they are, not replaced by the default. *)
Theorem get_deep_stops_on_none_only
    (d key default : value) (keys : list value)
    (Hkeys : key_path key = Ok keys) :
  get_deep d key default = get_deep_loop d keys default /\
  (forall d0 k ks,
      get_deep_loop d0 (k :: ks) default =
        (d' ← get d0 k VNone;
         if py_eq d' VNone then Ok default else get_deep_loop d' ks default)) /\
  (forall x, py_eq x VNone = true <-> x = VNone) /\
  (forall pre k post x,
      keys = pre ++ k :: post ->
      steps d pre x ->
      get x k VNone = Ok VNone ->
      get_deep d key default = Ok default) /\
  (forall x, steps d keys x -> get_deep d key default = Ok x) /\
  (forall pre k y x,
      keys = pre ++ [k] ->
      steps d pre y ->
      get y k VNone = Ok x ->
      falsy x ->
      get_deep d key default = Ok x).
Proof.
  rewrite (get_deep_key_path _ _ _ _ Hkeys).
  split; [reflexivity |].
  split; [intros; apply get_deep_loop_cons |].
  split; [apply py_eq_none |].
  split; [| split].
  - intros pre k post x -> Hpre Hget.
    eapply get_deep_loop_stop; eassumption.
  - intros x Hx. apply get_deep_loop_steps, Hx.
  - intros pre k y x -> Hpre Hget Hfalsy.
    rewrite (get_deep_loop_app _ _ _ _ _ Hpre). simpl.
    rewrite Hget. simpl. rewrite (falsy_not_none _ Hfalsy). reflexivity.
Qed.

Lemma get_deep_stops_on_none_only_witness :
  get_deep doc_ab (VStr "a.c.x.y") (VInt 7) = Ok (VInt 7) /\
  get_deep doc_ab (VStr "a.z.x") (VInt 7) = Ok (VInt 7) /\
  get_deep doc_ab (VStr "a.b") (VInt 7) = Ok (VInt 0).
Proof.
  assert (Ha : steps doc_ab [VStr "a"] (VDict [("b", VInt 0); ("c", VNone)])).
  { eapply steps_cons; [reflexivity | reflexivity | apply steps_nil]. }
  split; [| split].
  - destruct (get_deep_stops_on_none_only doc_ab (VStr "a.c.x.y") (VInt 7)
                [VStr "a"; VStr "c"; VStr "x"; VStr "y"] eq_refl)
      as (_ & _ & _ & Hstop & _).
    exact (Hstop [VStr "a"] (VStr "c") [VStr "x"; VStr "y"] _ eq_refl Ha eq_refl).
  - destruct (get_deep_stops_on_none_only doc_ab (VStr "a.z.x") (VInt 7)
                [VStr "a"; VStr "z"; VStr "x"] eq_refl)
      as (_ & _ & _ & Hstop & _).
    exact (Hstop [VStr "a"] (VStr "z") [VStr "x"] _ eq_refl Ha eq_refl).
  - destruct (get_deep_stops_on_none_only doc_ab (VStr "a.b") (VInt 7)
                [VStr "a"; VStr "b"] eq_refl)
      as (_ & _ & _ & _ & _ & Hfalsy).
    exact (Hfalsy [VStr "a"] (VStr "b") _ (VInt 0) eq_refl Ha eq_refl
             (or_introl eq_refl)).
Defined.

(** ** Dotted strings and key sequences *)

Lemma split_on_free (sep : ascii) (w : string) :
  sep_free sep w = true -> split_on sep w = [w].
Proof.
  induction w as [| c w IH]; simpl; [reflexivity |].
  intros [Hc Hw]%andb_prop.
  apply negb_true_iff in Hc. rewrite Hc, (IH Hw). reflexivity.
Qed.

Lemma split_on_app (sep : ascii) (w rest : string) :
  sep_free sep w = true ->
  split_on sep (String.append w (String sep rest)) = w :: split_on sep rest.
Proof.
  induction w as [| c w IH]; simpl.
  - intros _. rewrite Ascii.eqb_refl. reflexivity.
  - intros [Hc Hw]%andb_prop.
    apply negb_true_iff in Hc. rewrite Hc, (IH Hw). reflexivity.
Qed.

(** Splitting undoes joining, for segments that hold no separator. *)
Lemma split_on_concat (sep : ascii) (segs : list string) :
  segs <> [] ->
  Forall (fun s => sep_free sep s = true) segs ->
  split_on sep (String.concat (String sep EmptyString) segs) = segs.
Proof.
  induction segs as [| w segs IH]; [congruence |].
  intros _ Hfree. inversion Hfree as [| ? ? Hw Hsegs]; subst.
  destruct segs as [| w' segs'].
  - simpl. apply split_on_free, Hw.
  - change (String.concat (String sep EmptyString) (w :: w' :: segs'))
      with (String.append w (String sep (String.concat (String sep EmptyString) (w' :: segs')))).
    rewrite (split_on_app _ _ _ Hw), IH; [reflexivity | congruence | exact Hsegs].
Qed.

Lemma get_deep_string_is_split (d default : value) (s : string) :
  get_deep d (VStr s) default =
  get_deep d (VTuple (map VStr (split_on "." s))) default.
Proof. reflexivity. Qed.

(** C5. A dot-delimited string key and the sequence of its segments are
    the same key path: for segments [a], [b], [c] (any non-empty sequence
    of dot-free strings), [get_deep(d, "a.b.c", v)] and
    [get_deep(d, ("a", "b", "c"), v)] are equal, for every [d] and [v]. *)
Theorem get_deep_dotted_string_eq_tuple
    (d default : value) (segs : list string)
    (Hne : segs <> [])
    (Hfree : Forall (fun s => sep_free "." s = true) segs) :
  get_deep d (VStr (String.concat "." segs)) default =
  get_deep d (VTuple (map VStr segs)) default.
Proof.
  rewrite get_deep_string_is_split.
  rewrite (split_on_concat "." segs Hne Hfree). reflexivity.
Qed.

Lemma get_deep_dotted_string_eq_tuple_witness :
  get_deep doc_ab (VStr "a.b.c") (VInt 7) =
  get_deep doc_ab (VTuple [VStr "a"; VStr "b"; VStr "c"]) (VInt 7).
Proof.
  apply (get_deep_dotted_string_eq_tuple doc_ab (VInt 7) ["a"; "b"; "c"]).
  - discriminate.
  - repeat constructor.
Defined.

(** ** Composition *)

Lemma compose_snoc {A : Type} (fn : A -> A) (fns : list (A -> A)) (g : A -> A) (x : A) :
  compose fn (fns ++ [g]) x = compose fn fns (g x).
Proof. unfold compose. rewrite fold_left_app. reflexivity. Qed.

(** [compose(f, g1, ..., gn)] is [f . g1 . ... . gn]. *)
Lemma compose_fold_right {A : Type} (fn : A -> A) (fns : list (A -> A)) (x : A) :
  compose fn fns x = fn (fold_right (fun g y => g y) x fns).
Proof.
  unfold compose. revert fn.
  induction fns as [| g fns IH]; intros fn; simpl; [reflexivity |].
  rewrite IH. reflexivity.
Qed.

(** C7. [compose(f, g, h)(x) == f(g(h(x)))]: the fold with [compose2],
    seeded with the first function, applies the rightmost function to
    the input and the leftmost function last; functions that record
    their calls are called in the order [h], [g], [f]. *)
Theorem compose_three {A : Type} (f g h : A -> A) (x : A) :
  compose f [g; h] x = f (g (h x)) /\
  compose f [g; h] = compose2 (compose2 f g) h /\
  (forall fns : list (A -> A), compose f (fns ++ [h]) x = compose f fns (h x)) /\
  (forall fns : list (A -> A), compose f fns x = f (fold_right (fun k y => k y) x fns)) /\
  compose (logged "f" f) [logged "g" g; logged "h" h] (x, []) =
    (f (g (h x)), ["h"; "g"; "f"]).
Proof.
  split; [reflexivity |].
  split; [reflexivity |].
  split; [intros fns; apply compose_snoc |].
  split; [intros fns; apply compose_fold_right |].
  reflexivity.
Qed.

(** ** Chunking *)

Lemma len_app {A : Type} (xs ys : list A) : len (xs ++ ys) = len xs + len ys.
Proof. unfold len. rewrite length_app. lia. Qed.

Lemma len_nonneg {A : Type} (xs : list A) : 0 <= len xs.
Proof. unfold len. lia. Qed.

Lemma len_zero {A : Type} (xs : list A) : len xs = 0 -> xs = [].
Proof. unfold len. destruct xs; simpl; [reflexivity | lia]. Qed.

Section Chunk.
Context {A : Type}.
Variable n : Z.
Hypothesis Hn : 0 < n.

(** The batches, laid end to end, are the pending batch followed by the
    rest of the input. *)
Lemma chunk_loop_concat (acc xs : list A) :
  List.concat (chunk_loop n acc xs) = acc ++ xs.
Proof using Type.
  revert acc. induction xs as [| x xs IH]; intros acc; simpl.
  - destruct (0 <? len acc) eqn:E; simpl.
    + rewrite app_nil_r. reflexivity.
    + apply Z.ltb_ge in E. pose proof (len_nonneg acc).
      rewrite (len_zero acc); [reflexivity | lia].
  - destruct (len (acc ++ [x]) =? n); simpl; rewrite IH.
    + rewrite <- app_assoc. reflexivity.
    + rewrite <- app_assoc. reflexivity.
Qed.

(** No batch is empty and none is longer than [n], as long as the
    pending batch is shorter than [n]. *)
Lemma chunk_loop_sizes (acc xs : list A) :
  len acc < n ->
  Forall (fun b => 0 < len b <= n) (chunk_loop n acc xs).
Proof using Hn.
  revert acc. induction xs as [| x xs IH]; intros acc Hacc; simpl.
  - destruct (0 <? len acc) eqn:E; [| constructor].
    apply Z.ltb_lt in E. repeat constructor; lia.
  - assert (Hlen : len (acc ++ [x]) = len acc + 1) by apply len_app.
    pose proof (len_nonneg acc).
    destruct (len (acc ++ [x]) =? n) eqn:E.
    + apply Z.eqb_eq in E. constructor; [lia |].
      apply IH. unfold len. simpl. lia.
    + apply Z.eqb_neq in E. apply IH. lia.
Qed.

(** Every batch but the last is full. *)
Lemma chunk_loop_full (acc xs : list A) :
  all_but_last (fun b => len b = n) (chunk_loop n acc xs).
Proof using Type.
  revert acc. induction xs as [| x xs IH]; intros acc init b; simpl.
  - destruct (0 <? len acc).
    + intros Heq. destruct init as [| c init]; [constructor |].
      destruct init; discriminate.
    + destruct init; discriminate.
  - destruct (len (acc ++ [x]) =? n) eqn:E.
    + apply Z.eqb_eq in E. intros Heq.
      destruct init as [| c init]; [constructor |].
      injection Heq as Hc Hrest. subst c.
      constructor; [exact E |]. exact (IH [] init b Hrest).
    + apply IH.
Qed.
End Chunk.

(** C9. For a positive batch size [n], [chunk(xs, n)] cuts [xs] into
    consecutive batches, in input order: laid end to end the batches are
    [xs]; every batch except the last has exactly [n] elements; no batch
    is empty or longer than [n], so an empty input gives no batch at all.
    And [chunk(range(7), 3)] is [[0,1,2],[3,4,5],[6]]. *)
Theorem chunk_batches {A : Type} (xs : list A) (n : Z) (Hn : 0 < n) :
  List.concat (chunk xs n) = xs /\
  all_but_last (fun b => len b = n) (chunk xs n) /\
  Forall (fun b => b <> [] /\ len b <= n) (chunk xs n) /\
  (chunk xs n = [] <-> xs = []) /\
  chunk [0; 1; 2; 3; 4; 5; 6] 3 = [[0; 1; 2]; [3; 4; 5]; [6]].
Proof.
  unfold chunk.
  assert (Hsizes : Forall (fun b : list A => 0 < len b <= n) (chunk_loop n [] xs)).
  { apply chunk_loop_sizes; [exact Hn |]. unfold len. simpl. lia. }
  split; [apply chunk_loop_concat |].
  split; [apply chunk_loop_full |].
  split.
  - eapply Forall_impl; [exact Hsizes |].
    intros b [Hpos Hle]. split; [| exact Hle].
    intros ->. unfold len in Hpos. simpl in Hpos. lia.
  - split; [| reflexivity].
    split.
    + intros Hnil. pose proof (chunk_loop_concat n [] xs) as Hc.
      rewrite Hnil in Hc. simpl in Hc. congruence.
    + intros ->. reflexivity.
Qed.

Lemma chunk_batches_witness :
  List.concat (chunk [0; 1; 2; 3; 4; 5; 6] 3) = [0; 1; 2; 3; 4; 5; 6] /\
  all_but_last (fun b => len b = 3) (chunk [0; 1; 2; 3; 4; 5; 6] 3) /\
  Forall (fun b => b <> [] /\ len b <= 3) (chunk [0; 1; 2; 3; 4; 5; 6] 3).
Proof.
  destruct (chunk_batches [0; 1; 2; 3; 4; 5; 6] 3 ltac:(lia))
    as (Hcat & Hfull & Hsize & _).
  exact (conj Hcat (conj Hfull Hsize)).
Defined.

(** ** Generators that filter *)

Lemma gen_filter_total {A : Type} (p : A -> result bool) (q : A -> bool) (xs : list A) :
  (forall x, In x xs -> p x = Ok (q x)) ->
  gen_filter p xs = Gen (List.filter q xs) None.
Proof.
  induction xs as [| x xs IH]; intros Hp; simpl; [reflexivity |].
  rewrite (Hp x (or_introl eq_refl)).
  rewrite IH by (intros y Hy; apply Hp; right; exact Hy).
  simpl. destruct (q x); reflexivity.
Qed.

Lemma gen_filter_all {A : Type} (p : A -> result bool) (xs : list A) :
  (forall x, p x = Ok true) -> gen_filter p xs = Gen xs None.
Proof.
  intros Hp. induction xs as [| x xs IH]; simpl; [reflexivity |].
  rewrite Hp, IH. reflexivity.
Qed.

Lemma gen_filter_raises {A : Type} (p : A -> result bool) (x : A) (xs : list A) (e : exn) :
  p x = Raise e -> gen_filter p (x :: xs) = Gen [] (Some e).
Proof. simpl. intros ->. reflexivity. Qed.

Lemma tuple_filter_total {A : Type} (q : A -> bool) (xs : list A) :
  tuple_filter (fun x => Ok (q x)) xs = Ok (List.filter q xs).
Proof.
  induction xs as [| x xs IH]; simpl; [reflexivity |].
  rewrite IH. simpl. reflexivity.
Qed.

(** ** The accessor on objects that are not dictionaries *)

Lemma get_on_dict (d : list (string * value)) (k : string) (default : value) :
  get (VDict d) (VStr k) default =
    Ok (match dict_lookup k d with Some v => v | None => default end).
Proof. simpl. unfold get_dict. simpl. destruct (dict_lookup k d); reflexivity. Qed.

Lemma get_agrees_on_dict (d : list (string * value)) (key default : value) :
  get (VDict d) key default = get_documented (VDict d) key default.
Proof. reflexivity. Qed.

Lemma get_not_dict (x key default : value) :
  (forall d, x <> VDict d) -> get x key default = Raise TypeError.
Proof. destruct x; intros H; try reflexivity. exfalso. exact (H kvs eq_refl). Qed.

(** C2, at the input where the code departs from it.  An object with a
    [title] attribute is not a dictionary: [get] raises [TypeError] on it,
    where attribute lookup, which the docstring of [get] announces as the
    default, returns the attribute. *)
Theorem get_raises_on_attribute_object :
  get obj_titled (VStr "title") VNone = Raise TypeError /\
  get_documented obj_titled (VStr "title") VNone = Ok (VStr "Hello") /\
  (forall oid attrs key default, get (VObj oid attrs) key default = Raise TypeError).
Proof. repeat split. Qed.

(** ** Matching on [id_path] *)

Section MatchingFacts.
Variable fnmatchcase : string -> string -> bool.

Lemma id_path_matches_star (d : value) :
  id_path_matches fnmatchcase d (VStr "*") = Ok true.
Proof using Type. reflexivity. Qed.

Lemma match_by_id_path_star (ds : list value) :
  match_by_id_path fnmatchcase ds (VStr "*") = Gen ds None.
Proof using Type.
  unfold match_by_id_path. apply gen_filter_all. intros d. reflexivity.
Qed.

Lemma id_path_matches_no_id_path (kvs : list (string * value)) (pat : string) :
  pat <> "*" ->
  dict_lookup "id_path" kvs = None ->
  id_path_matches fnmatchcase (VDict kvs) (VStr pat) = Raise TypeError.
Proof using Type.
  intros Hpat Hmiss. unfold id_path_matches.
  assert (E : py_eq (VStr pat) (VStr "*") = false).
  { simpl. apply String.eqb_neq. exact Hpat. }
  rewrite E. simpl negb. cbv iota.
  rewrite (get_missing _ _ Hmiss). reflexivity.
Qed.
End MatchingFacts.

(** C10. The pattern ["*"] matches every object without looking at it, so
    [match_by_id_path(ds, "*")] yields all of [ds], whatever they hold.
    With any other pattern, a dictionary without an [id_path] field makes
    [id_path_matches] raise ([fnmatch] is handed [None]) instead of
    answering [False], and [match_by_id_path] ends with that error when it
    reaches such a document. *)
Theorem id_path_star_matches_everything (fnmatchcase : string -> string -> bool) :
  (forall d, id_path_matches fnmatchcase d (VStr "*") = Ok true) /\
  (forall ds, match_by_id_path fnmatchcase ds (VStr "*") = Gen ds None) /\
  (forall kvs pat,
      pat <> "*" ->
      dict_lookup "id_path" kvs = None ->
      id_path_matches fnmatchcase (VDict kvs) (VStr pat) = Raise TypeError /\
      forall ds,
        match_by_id_path fnmatchcase (VDict kvs :: ds) (VStr pat) = Gen [] (Some TypeError)).
Proof.
  split; [apply id_path_matches_star |].
  split; [apply match_by_id_path_star |].
  intros kvs pat Hpat Hmiss.
  pose proof (id_path_matches_no_id_path fnmatchcase kvs pat Hpat Hmiss) as Hraise.
  split; [exact Hraise |].
  intros ds. unfold match_by_id_path. apply gen_filter_raises. exact Hraise.
Qed.

Lemma id_path_star_matches_everything_witness :
  match_by_id_path glob_match [doc_untitled; obj_titled; VNone] (VStr "*")
    = Gen [doc_untitled; obj_titled; VNone] None /\
  id_path_matches glob_match doc_untitled (VStr "posts/*") = Raise TypeError.
Proof.
  destruct (id_path_star_matches_everything glob_match) as (_ & Hall & Hraise).
  split.
  - apply Hall.
  - apply (Hraise [("title", VStr "About")] "posts/*"); [discriminate | reflexivity].
Defined.

(** ** Dictionary updates *)

Section DictFacts.
Context {V : Type}.
Implicit Types (d e : list (string * V)) (k : string) (v : V).

Lemma dict_lookup_set k k' v d :
  dict_lookup k (dict_set k' v d) =
    if String.eqb k k' then Some v else dict_lookup k d.
Proof using Type.
  induction d as [| [k0 v0] d IH]; simpl.
  - destruct (String.eqb k k'); reflexivity.
  - destruct (String.eqb k' k0) eqn:E0; simpl.
    + apply String.eqb_eq in E0. subst k0.
      destruct (String.eqb k k'); reflexivity.
    + rewrite IH. destruct (String.eqb k k0) eqn:E1; [| reflexivity].
      apply String.eqb_eq in E1. subst k0.
      rewrite String.eqb_sym in E0. rewrite E0. reflexivity.
Qed.

Lemma dict_lookup_not_key k e :
  ~ In k (map fst e) -> dict_lookup k e = None.
Proof using Type.
  induction e as [| [k0 v0] e IH]; simpl; [reflexivity |].
  intros Hnot. destruct (String.eqb k k0) eqn:E.
  - apply String.eqb_eq in E. subst k0. exfalso. apply Hnot. left. reflexivity.
  - apply IH. intros Hin. apply Hnot. right. exact Hin.
Qed.

(** After [d.update(e)], a key of [e] holds the value [e] gives it and
    any other key holds what it held in [d]. *)
Lemma dict_lookup_update k d e :
  List.NoDup (map fst e) ->
  dict_lookup k (dict_update d e) =
    match dict_lookup k e with
    | Some v => Some v
    | None => dict_lookup k d
    end.
Proof using Type.
  unfold dict_update. revert d.
  induction e as [| [k0 v0] e IH]; intros d Hnd; simpl; [reflexivity |].
  inversion Hnd as [| ? ? Hnot Hnd']; subst.
  rewrite (IH _ Hnd'), dict_lookup_set.
  destruct (String.eqb k k0) eqn:E; [| reflexivity].
  apply String.eqb_eq in E. subst k0.
  rewrite (dict_lookup_not_key _ _ Hnot). reflexivity.
Qed.
End DictFacts.

(** ** The grouping decorator *)

Lemma bind_kwargs_ok {V : Type} (param : string) (kwargs : list (string * V)) :
  dict_lookup param kwargs = None -> bind_kwargs param kwargs = Ok kwargs.
Proof. unfold bind_kwargs. intros ->. reflexivity. Qed.

Lemma replace_ok (d kwargs : list (string * value)) :
  dict_lookup "d" kwargs = None ->
  replace (VDict d) kwargs = Ok (VDict (dict_update d kwargs)).
Proof.
  intros Hd. unfold replace, replace_dict.
  rewrite (bind_kwargs_ok "d" kwargs Hd). reflexivity.
Qed.

Lemma replace_keyword_d (d kwargs : list (string * value)) (v : value) :
  dict_lookup "d" kwargs = Some v ->
  replace (VDict d) kwargs = Raise TypeError.
Proof.
  intros Hd. unfold replace, replace_dict, bind_kwargs. rewrite Hd. reflexivity.
Qed.

Section GroupingFacts.
Context {R : Type}.
Variable p : value -> value -> bool.
Variable f : list value -> list (string * value) -> result R.

Lemma group_step_total (items : list value) (def : list (string * value))
    (pattern : string) (cfg : list (string * value)) :
  dict_lookup "d" cfg = None ->
  group_step (fun d pat => Ok (p d pat)) f items (VDict def) pattern (VDict cfg) =
  f (List.filter (fun d => p d (VStr pattern)) items) (dict_update def cfg).
Proof using Type.
  intros Hd. unfold group_step. rewrite tuple_filter_total.
  change (Ok (List.filter (fun d => p d (VStr pattern)) items) ≫= _)
    with (merged ← replace (VDict def) cfg;
          conf ← as_kwargs merged;
          f (List.filter (fun d => p d (VStr pattern)) items) conf).
  rewrite (replace_ok def cfg Hd). reflexivity.
Qed.

Lemma group_loop_total (items : list value) (def : list (string * value))
    (gs : list (string * list (string * value))) :
  Forall (fun g => dict_lookup "d" g.2 = None) gs ->
  group_loop (fun d pat => Ok (p d pat)) f items (VDict def) (group_items gs) =
  gen_results (map (fun g => f (List.filter (fun d => p d (VStr g.1)) items)
                               (dict_update def g.2)) gs).
Proof using Type.
  induction 1 as [| [pattern cfg] gs Hd _ IH]; [reflexivity |].
  cbn [group_items map group_loop gen_results fst snd].
  rewrite (group_step_total items def pattern cfg Hd).
  fold (group_items gs). rewrite IH.
  destruct (f _ _); reflexivity.
Qed.
End GroupingFacts.

Lemma gen_results_ok {R : Type} (rs : list R) :
  gen_results (map Ok rs) = Gen rs None.
Proof.
  induction rs as [| r rs IH]; simpl; [reflexivity |]. rewrite IH. reflexivity.
Qed.

(** C4, as the code has it.  With a predicate [p] and a reducer [f], and
    group configurations none of which has a key named [d], the decorated
    function calls [f] once per group, in the order of the group mapping:
    on the documents that satisfy [p] for the group's pattern, in their
    original order, with the defaults overwritten by the group's
    configuration as keyword arguments.  It yields the results of these
    calls, one per group when [f] does not raise.  A key of the
    configuration takes the configuration's value, any other key the
    default's.  Groups are selected independently: a document that
    satisfies [p] for several patterns is passed to [f] in each of those
    groups. *)
Theorem decorate_group_matching_per_group {R : Type}
    (p : value -> value -> bool)
    (f : list value -> list (string * value) -> result R)
    (ds : list value) (gs : list (string * list (string * value)))
    (def : list (string * value))
    (Hkeys : Forall (fun g => List.NoDup (map fst g.2)) gs)
    (Hnames : Forall (fun g => dict_lookup "d" g.2 = None) gs) :
  decorate_group_matching (fun d pat => Ok (p d pat)) f
      ds (group_items gs) (VDict def) =
    gen_results (map (fun g => f (List.filter (fun d => p d (VStr g.1)) ds)
                                 (dict_update def g.2)) gs) /\
  (forall fp : list value -> list (string * value) -> R,
      (forall m kw, f m kw = Ok (fp m kw)) ->
      decorate_group_matching (fun d pat => Ok (p d pat)) f
          ds (group_items gs) (VDict def) =
        Gen (map (fun g => fp (List.filter (fun d => p d (VStr g.1)) ds)
                              (dict_update def g.2)) gs) None) /\
  (forall g k, In g gs ->
      replace (VDict def) g.2 = Ok (VDict (dict_update def g.2)) /\
      dict_lookup k (dict_update def g.2) =
        match dict_lookup k g.2 with
        | Some v => Some v
        | None => dict_lookup k def
        end) /\
  (forall d pattern, In d ds -> p d (VStr pattern) = true ->
      In d (List.filter (fun d => p d (VStr pattern)) ds)).
Proof.
  assert (Hrun : decorate_group_matching (fun d pat => Ok (p d pat)) f
                   ds (group_items gs) (VDict def) =
                 gen_results (map (fun g => f (List.filter (fun d => p d (VStr g.1)) ds)
                                              (dict_update def g.2)) gs)).
  { apply group_loop_total, Hnames. }
  split; [exact Hrun |].
  split; [| split].
  - intros fp Hf. rewrite Hrun. rewrite <- gen_results_ok, List.map_map.
    f_equal. apply List.map_ext. intros g. apply Hf.
  - intros g k Hg. rewrite List.Forall_forall in Hkeys, Hnames. split.
    + apply replace_ok, (Hnames g Hg).
    + apply dict_lookup_update, (Hkeys g Hg).
  - intros d pattern Hd Hp. apply List.filter_In. split; assumption.
Qed.

Lemma decorate_group_matching_per_group_witness :
  decorate_group_matching
      (fun d pat => Ok (matches_or_false d pat)) (fun m kw => Ok (collect m kw))
      [doc_post; doc_index] (group_items groups_ex)
      (VDict [("tag", VStr "none"); ("lang", VStr "en")]) =
    Gen [([doc_post], [("tag", VStr "post"); ("lang", VStr "en")]);
         ([doc_post; doc_index], [("tag", VStr "page"); ("lang", VStr "en")])]
      None.
Proof.
  assert (Hkeys : Forall (fun g : string * list (string * value) =>
                            List.NoDup (map fst g.2)) groups_ex).
  { repeat constructor; simpl; tauto. }
  assert (Hnames : Forall (fun g : string * list (string * value) =>
                             dict_lookup "d" g.2 = None) groups_ex).
  { repeat constructor. }
  destruct (decorate_group_matching_per_group matches_or_false
              (fun m kw => Ok (collect m kw))
              [doc_post; doc_index] groups_ex
              [("tag", VStr "none"); ("lang", VStr "en")] Hkeys Hnames)
    as (_ & Hpure & _).
  rewrite (Hpure collect (fun m kw => eq_refl)). reflexivity.
Defined.

(** C4 fails as stated at a configuration with a key named [d]: the call
    [replace(defaults, **kwargs)] raises [TypeError], so the group gets no
    result. *)
Lemma decorate_group_matching_config_named_d :
  decorate_group_matching
      (fun d pat => Ok (matches_or_false d pat)) (fun m kw => Ok (collect m kw))
      [doc_post] (group_items [("*", [("d", VInt 1)])]) (VDict []) =
    Gen [] (Some TypeError) /\
  decorate_group_matching
      (fun d pat => Ok (matches_or_false d pat)) (fun m kw => Ok (collect m kw))
      [doc_post] (group_items [("*", [("d", VInt 1)])]) (VDict []) <>
    Gen [collect [doc_post] [("d", VInt 1)]] None.
Proof. split; [reflexivity | discriminate]. Qed.

(** The same groups through the pre-bound [decorate_group_matching_id_path],
    whose predicate can raise: all documents carry an [id_path] here. *)
Example decorate_group_matching_id_path_example :
  decorate_group_matching_id_path glob_match (fun m kw => Ok (collect m kw))
      [doc_post; doc_index] (group_items groups_ex) (VDict []) =
    Gen [([doc_post], [("tag", VStr "post")]);
         ([doc_post; doc_index], [("tag", VStr "page")])]
      None.
Proof. reflexivity. Qed.

(** ** [replace] on the object store *)

Section StoreFacts.
Import Store.
Implicit Types (h : gmap loc obj) (d e : loc).

Lemma dict_at_Some h d entries :
  dict_at h d = Some entries <-> h !! d = Some (ODict entries).
Proof.
  unfold dict_at. destruct (h !! d) as [[es | xs] |]; split; intros H;
    congruence.
Qed.

Lemma fresh_unallocated h : h !! fresh (dom h) = None.
Proof. apply not_elem_of_dom. apply is_fresh. Qed.

Lemma replace_dict_eq h d entries kwargs :
  h !! d = Some (ODict entries) ->
  dict_lookup "d" kwargs = None ->
  replace_dict h d kwargs =
    Ok (<[fresh (dom h) := ODict (dict_update entries kwargs)]> h, fresh (dom h)).
Proof.
  intros Hd Hname. unfold replace_dict, dict_copy, dict_update_at.
  rewrite (bind_kwargs_ok "d" kwargs Hname).
  rewrite (proj2 (dict_at_Some h d entries) Hd). simpl.
  rewrite (proj2 (dict_at_Some _ (fresh (dom h)) entries)) by apply lookup_insert_eq.
  simpl. rewrite insert_insert_eq. reflexivity.
Qed.

Lemma replace_keyword_d_store h d entries kwargs v :
  h !! d = Some (ODict entries) ->
  dict_lookup "d" kwargs = Some v ->
  replace h (SRef d) kwargs = Raise TypeError.
Proof.
  intros Hd Hname. unfold replace, replace_dict, bind_kwargs.
  rewrite (proj2 (dict_at_Some h d entries) Hd), Hname. reflexivity.
Qed.
End StoreFacts.

(** C6, as the code has it.  [replace(d, **fs)] on a dictionary [d],
    with keyword fields none of which is named [d], returns a dictionary
    that did not exist before the call and holds the entries of [d] with
    the named fields overwritten: a field named in [fs] has the value
    [fs] gives it, every other field the value it has in [d].  Every
    object that existed before the call, [d] first of all, is the same
    after it. *)
Theorem replace_returns_new_dict
    (h : gmap Store.loc Store.obj) (d : Store.loc)
    (entries kwargs : list (string * Store.sval))
    (Hd : h !! d = Some (Store.ODict entries))
    (Hkw : List.NoDup (map fst kwargs))
    (Hname : dict_lookup "d" kwargs = None) :
  exists h' e,
    Store.replace h (Store.SRef d) kwargs = Ok (h', Store.SRef e) /\
    h !! e = None /\
    h' !! e = Some (Store.ODict (dict_update entries kwargs)) /\
    (forall k,
        dict_lookup k (dict_update entries kwargs) =
          match dict_lookup k kwargs with
          | Some v => Some v
          | None => dict_lookup k entries
          end) /\
    h' !! d = Some (Store.ODict entries) /\
    (forall l, l <> e -> h' !! l = h !! l).
Proof.
  exists (<[fresh (dom h) := Store.ODict (dict_update entries kwargs)]> h), (fresh (dom h)).
  pose proof (fresh_unallocated h) as Hfresh.
  assert (Hne : d <> fresh (dom h)) by (intros E; rewrite <- E in Hfresh; congruence).
  split.
  { unfold Store.replace.
    rewrite (proj2 (dict_at_Some h d entries) Hd).
    rewrite (replace_dict_eq h d entries kwargs Hd Hname). reflexivity. }
  split; [exact Hfresh |].
  split; [apply lookup_insert_eq |].
  split; [intros k; apply dict_lookup_update, Hkw |].
  split.
  - rewrite lookup_insert_ne by congruence. exact Hd.
  - intros l Hl. apply lookup_insert_ne. congruence.
Qed.

Lemma replace_returns_new_dict_witness :
  exists h' e,
    Store.replace store_ex (Store.SRef 1%positive) [("title", Store.SStr "Start")]
      = Ok (h', Store.SRef e) /\
    h' !! e = Some (Store.ODict (dict_update
                      [("title", Store.SStr "Home"); ("meta", Store.SRef 2%positive)]
                      [("title", Store.SStr "Start")])) /\
    h' !! 1%positive = store_ex !! 1%positive /\
    h' !! 2%positive = store_ex !! 2%positive.
Proof.
  assert (Hd : store_ex !! 1%positive =
               Some (Store.ODict [("title", Store.SStr "Home"); ("meta", Store.SRef 2%positive)]))
    by reflexivity.
  assert (Hkw : List.NoDup (map fst [("title", Store.SStr "Start")])).
  { repeat constructor. simpl. tauto. }
  destruct (replace_returns_new_dict store_ex 1%positive _ _ Hd Hkw eq_refl)
    as (h' & e & Hrun & Hnew & Hat & _ & Hsame & Hframe).
  exists h', e. split; [exact Hrun |]. split; [exact Hat |].
  split.
  - exact (eq_trans Hsame (eq_sym Hd)).
  - apply Hframe. intros E. subst e. vm_compute in Hnew. discriminate Hnew.
Defined.

(** C6 fails as stated at a keyword field named [d]: the call raises
    [TypeError] and returns no document. *)
Lemma replace_field_named_d :
  Store.replace store_ex (Store.SRef 1%positive) [("d", Store.SInt 5)] = Raise TypeError /\
  ~ exists h' e,
      Store.replace store_ex (Store.SRef 1%positive) [("d", Store.SInt 5)]
        = Ok (h', Store.SRef e).
Proof.
  assert (H : Store.replace store_ex (Store.SRef 1%positive) [("d", Store.SInt 5)]
              = Raise TypeError).
  { apply (replace_keyword_d_store store_ex 1%positive
             [("title", Store.SStr "Home"); ("meta", Store.SRef 2%positive)]
             [("d", Store.SInt 5)] (Store.SInt 5)); reflexivity. }
  split; [exact H |]. intros (h' & e & Hrun). rewrite H in Hrun. discriminate Hrun.
Qed.

(** ** Membership queries *)

Lemma any_in_loop_list (xs ts : list value) :
  any_in_loop (VList xs) ts = Ok (shares xs ts).
Proof.
  induction ts as [| t ts IH]; simpl; [reflexivity |].
  destruct (existsb (fun x => py_eq x t) xs); simpl; [reflexivity | exact IH].
Qed.

Lemma any_in_loop_tuple (xs ts : list value) :
  any_in_loop (VTuple xs) ts = Ok (shares xs ts).
Proof.
  induction ts as [| t ts IH]; simpl; [reflexivity |].
  destruct (existsb (fun x => py_eq x t) xs); simpl; [reflexivity | exact IH].
Qed.

Lemma shares_true (xs ts : list value) :
  shares xs ts = true <-> exists t x, In t ts /\ In x xs /\ py_eq x t = true.
Proof.
  unfold shares. rewrite List.existsb_exists. split.
  - intros (t & Ht & Hx). apply List.existsb_exists in Hx as (x & Hx & Heq).
    exists t, x. auto.
  - intros (t & x & Ht & Hx & Heq). exists t. split; [exact Ht |].
    apply List.existsb_exists. exists x. auto.
Qed.

(** The test of [where_contains_any] on a document whose key path holds a
    list or a tuple, or nothing. *)
Lemma contains_any_test (d key terms : value) (ts : list value) :
  py_tuple terms = Ok ts ->
  is_sequence (get_deep d key _EMPTY_TUPLE) ->
  (c ← get_deep d key _EMPTY_TUPLE; any_in c terms) = Ok (shares (items_at d key) ts).
Proof.
  intros Hterms [xs [Hc | Hc]]; unfold items_at, any_in; rewrite Hc; simpl;
    rewrite Hterms; simpl.
  - apply any_in_loop_list.
  - apply any_in_loop_tuple.
Qed.

(** An absent key path reads as the empty tuple. *)
Lemma items_at_absent (d key x k : value) (keys pre post : list value) :
  key_path key = Ok keys ->
  keys = pre ++ k :: post ->
  steps d pre x ->
  get x k VNone = Ok VNone ->
  get_deep d key _EMPTY_TUPLE = Ok _EMPTY_TUPLE /\ items_at d key = [].
Proof.
  intros Hkeys -> Hpre Hget.
  assert (E : get_deep d key _EMPTY_TUPLE = Ok _EMPTY_TUPLE).
  { rewrite (get_deep_key_path _ _ _ _ Hkeys).
    eapply get_deep_loop_stop; eassumption. }
  split; [exact E |]. unfold items_at. rewrite E. reflexivity.
Qed.

(** C8. On documents whose key path [k] holds a list or a tuple, or is
    absent, [where_contains_any(ds, k, ts)] runs to the end and yields, in
    input order, the documents whose collection at [k] holds an element
    equal to one of [ts].  A document whose key path is absent reads as the
    empty tuple and is not yielded. *)
Theorem where_contains_any_selects
    (ds : list value) (key terms : value) (ts : list value)
    (Hterms : py_tuple terms = Ok ts)
    (Hseq : forall d, In d ds -> is_sequence (get_deep d key _EMPTY_TUPLE)) :
  where_contains_any ds key terms =
    Gen (List.filter (fun d => shares (items_at d key) ts) ds) None /\
  (forall d,
      In d (yielded (where_contains_any ds key terms)) <->
      In d ds /\ exists t x, In t ts /\ In x (items_at d key) /\ py_eq x t = true) /\
  (forall d keys pre k post x,
      key_path key = Ok keys ->
      keys = pre ++ k :: post ->
      steps d pre x ->
      get x k VNone = Ok VNone ->
      get_deep d key _EMPTY_TUPLE = Ok _EMPTY_TUPLE /\
      ~ In d (yielded (where_contains_any ds key terms))).
Proof.
  assert (Hrun : where_contains_any ds key terms =
                 Gen (List.filter (fun d => shares (items_at d key) ts) ds) None).
  { unfold where_contains_any. apply gen_filter_total.
    intros d Hd. apply contains_any_test; [exact Hterms | exact (Hseq d Hd)]. }
  split; [exact Hrun |].
  rewrite Hrun. simpl. split.
  - intros d. rewrite List.filter_In, shares_true. reflexivity.
  - intros d keys pre k post x Hkeys Hsplit Hpre Hget.
    destruct (items_at_absent d key x k keys pre post Hkeys Hsplit Hpre Hget)
      as [Hempty Hitems].
    split; [exact Hempty |].
    rewrite List.filter_In, Hitems. intros [_ Hsh].
    apply shares_true in Hsh as (t & y & _ & [] & _).
Qed.

Lemma where_contains_any_selects_witness :
  where_contains_any [doc_tagged_xz; doc_untitled; doc_tagged_q]
      (VStr "tags") (VList [VStr "x"; VStr "y"]) =
    Gen [doc_tagged_xz] None /\
  ~ In doc_untitled
      (yielded (where_contains_any [doc_tagged_xz; doc_untitled; doc_tagged_q]
                  (VStr "tags") (VList [VStr "x"; VStr "y"]))).
Proof.
  assert (Hseq : forall d, In d [doc_tagged_xz; doc_untitled; doc_tagged_q] ->
                           is_sequence (get_deep d (VStr "tags") _EMPTY_TUPLE)).
  { intros d [<- | [<- | [<- | []]]].
    - exists [VStr "x"; VStr "z"]. left. reflexivity.
    - exists []. right. reflexivity.
    - exists [VStr "q"]. right. reflexivity. }
  destruct (where_contains_any_selects
              [doc_tagged_xz; doc_untitled; doc_tagged_q]
              (VStr "tags") (VList [VStr "x"; VStr "y"]) [VStr "x"; VStr "y"]
              eq_refl Hseq) as (Hrun & _ & Habsent).
  split.
  - rewrite Hrun. reflexivity.
  - apply (Habsent doc_untitled [VStr "tags"] [] (VStr "tags") [] doc_untitled eq_refl eq_refl).
    + apply steps_nil.
    + reflexivity.
Defined.

(** ** Sorting by several keys *)

Lemma nve_ok {A : Type} (a : A) : no_value_error (Ok a).
Proof. discriminate. Qed.

Lemma nve_type_error {A : Type} : no_value_error (@Raise A TypeError).
Proof. discriminate. Qed.

Lemma nve_bind {A B : Type} (m : result A) (k : A -> result B) :
  no_value_error m ->
  (forall a, no_value_error (k a)) ->
  no_value_error (m ≫= k).
Proof.
  intros Hm Hk. destruct m as [a | e]; [apply Hk |].
  intros H. apply Hm. injection H as ->. reflexivity.
Qed.

Create HintDb nve.
#[local] Hint Resolve nve_ok nve_type_error : nve.

Lemma nve_get (x key default : value) : no_value_error (get x key default).
Proof.
  destruct x; simpl; auto with nve.
  unfold get_dict. destruct (hashable key); auto with nve.
  destruct key; auto with nve. destruct (dict_lookup s kvs); auto with nve.
Qed.

Lemma nve_key_path (key : value) : no_value_error (key_path key).
Proof. destruct key; simpl; auto with nve. Qed.

Lemma nve_get_deep_loop (d : value) (keys : list value) (default : value) :
  no_value_error (get_deep_loop d keys default).
Proof.
  revert d. induction keys as [| key keys IH]; intros d; simpl; auto with nve.
  apply nve_bind; [apply nve_get |].
  intros d'. destruct (py_eq d' VNone); auto with nve.
Qed.

Lemma nve_get_deep (d key default : value) : no_value_error (get_deep d key default).
Proof.
  unfold get_deep. apply nve_bind; [apply nve_key_path |].
  intros keys. apply nve_get_deep_loop.
Qed.

Lemma nve_tuple_map {A B : Type} (f : A -> result B) (xs : list A) :
  (forall x, no_value_error (f x)) -> no_value_error (tuple_map f xs).
Proof.
  intros Hf. induction xs as [| x xs IH]; simpl; auto with nve.
  apply nve_bind; [apply Hf |]. intros y.
  apply nve_bind; [exact IH |]. auto with nve.
Qed.

Lemma nve_py_lt : forall a b : value, no_value_error (py_lt a b).
Proof.
  fix IH 1. intros a b.
  destruct a as [| x | x | x | xs | xs | kvs | i attrs]; simpl; auto with nve.
  - destruct (as_int b); auto with nve.
  - destruct (as_int b); auto with nve.
  - destruct b; auto with nve.
  - destruct b as [| | | | ys | | |]; auto with nve.
    revert ys. induction xs as [| x xs IHxs]; intros [| y ys]; auto with nve.
    destruct (py_eq x y); [apply IHxs | apply IH].
  - destruct b as [| | | | | ys | |]; auto with nve.
    revert ys. induction xs as [| x xs IHxs]; intros [| y ys]; auto with nve.
    destruct (py_eq x y); [apply IHxs | apply IH].
Qed.

Lemma nve_sort_insert {A : Type} (p : value * A) (l : list (value * A)) :
  no_value_error (sort_insert p l).
Proof.
  induction l as [| q l IH]; simpl; auto with nve.
  apply nve_bind; [apply nve_py_lt |].
  intros [|]; auto with nve.
  apply nve_bind; [exact IH |]. auto with nve.
Qed.

Lemma nve_sort_keyed {A : Type} (l : list (value * A)) :
  no_value_error (sort_keyed l).
Proof.
  induction l as [| p l IH]; simpl; auto with nve.
  apply nve_bind; [exact IH |]. intros s. apply nve_sort_insert.
Qed.

Lemma nve_sorted {A : Type} (items : list A) (fkey : A -> result value) (reverse : bool) :
  (forall x, no_value_error (fkey x)) ->
  no_value_error (sorted items fkey reverse).
Proof.
  intros Hf. unfold sorted.
  apply nve_bind; [apply nve_tuple_map, Hf |]. intros keys.
  apply nve_bind; [apply nve_sort_keyed |]. auto with nve.
Qed.

Lemma int_is_small (a b : Z) : small_int a = true -> int_is a b = (a =? b).
Proof. unfold int_is. intros ->. apply andb_true_r. Qed.

(** The guard fires whenever the lengths differ, before anything is done
    with the documents. *)
Lemma sort_by_keys_mismatch (docs keys defaults : list value) (reverse : bool) :
  len defaults <> len keys ->
  sort_by_keys docs keys defaults reverse = Raise ValueError.
Proof.
  intros Hne. unfold sort_by_keys, int_is.
  apply Z.eqb_neq in Hne. rewrite Hne. reflexivity.
Qed.

(** Up to 256 defaults, [ValueError] is raised exactly on a mismatch. *)
Lemma sort_by_keys_value_error_small (docs keys defaults : list value) (reverse : bool) :
  len defaults <= 256 ->
  sort_by_keys docs keys defaults reverse = Raise ValueError <->
  len defaults <> len keys.
Proof.
  intros Hsmall. split; [| apply sort_by_keys_mismatch].
  unfold sort_by_keys. rewrite int_is_small.
  - destruct (len defaults =? len keys) eqn:E; simpl.
    + intros Hraise. exfalso. revert Hraise. apply nve_sorted.
      intros d. apply nve_bind; [| auto with nve].
      apply nve_tuple_map. intros kd. apply nve_get_deep.
    + intros _. apply Z.eqb_neq. exact E.
  - unfold small_int. pose proof (len_nonneg defaults).
    apply andb_true_intro. split; [apply Z.leb_le; lia | apply Z.leb_le; lia].
Qed.

(** C3, at the input where the code departs from it.  With 257 keys and
    257 defaults the lengths are equal, yet [sort_by_keys] raises
    [ValueError], whatever the documents: the guard compares the two
    lengths with [is not], and two equal integers above 256 are not the
    same object. *)
Theorem sort_by_keys_rejects_equal_lengths (docs : list value) (reverse : bool) :
  len (repeat VNone 257) = len (repeat (VStr "weight") 257) /\
  sort_by_keys docs (repeat (VStr "weight") 257) (repeat VNone 257) reverse
    = Raise ValueError.
Proof.
  split.
  - unfold len. rewrite !repeat_length. reflexivity.
  - unfold sort_by_keys.
    assert (E : int_is (len (repeat VNone 257)) (len (repeat (VStr "weight") 257)) = false).
    { unfold len. rewrite !repeat_length. reflexivity. }
    rewrite E. reflexivity.
Qed.

(** By weight, then by date; a missing field sorts as its default, and
    documents with equal keys keep their order. *)
Example sort_by_keys_weight_date :
  sort_by_keys docs_wd [VStr "weight"; VStr "date"] [VInt 0; VStr ""] false =
    Ok [VDict [("name", VStr "n")];
        doc_wd "b" 1 "2019-03-03"; doc_wd "a" 1 "2021-05-05";
        doc_wd "d" 1 "2021-05-05"; doc_wd "c" 2 "2020-01-01"] /\
  sort_by_keys docs_wd [VStr "weight"; VStr "date"] [VInt 0; VStr ""] true =
    Ok [doc_wd "c" 2 "2020-01-01";
        doc_wd "a" 1 "2021-05-05"; doc_wd "d" 1 "2021-05-05";
        doc_wd "b" 1 "2019-03-03"; VDict [("name", VStr "n")]] /\
  sort_by_keys docs_wd [VStr "weight"; VStr "date"] [VInt 0] false = Raise ValueError.
Proof. vm_compute. repeat split. Qed.

(** ** The sort *)

Section SortFacts.
Context {A : Type}.
Implicit Types (p q : value * A) (l s : list (value * A)).

Lemma sort_insert_perm p l s :
  sort_insert p l = Ok s -> Permutation (p :: l) s.
Proof using Type.
  revert s. induction l as [| q l IH]; simpl; intros s.
  - intros [= <-]. reflexivity.
  - destruct (py_lt q.1 p.1) as [[|] | e]; simpl; try discriminate.
    + destruct (sort_insert p l) as [r | e]; simpl; try discriminate.
      intros [= <-]. rewrite perm_swap. apply perm_skip. apply IH. reflexivity.
    + intros [= <-]. reflexivity.
Qed.

Lemma sort_keyed_perm l s : sort_keyed l = Ok s -> Permutation l s.
Proof using Type.
  revert s. induction l as [| p l IH]; simpl; intros s.
  - intros [= <-]. reflexivity.
  - destruct (sort_keyed l) as [r | e]; simpl; try discriminate.
    intros H. apply sort_insert_perm in H. rewrite <- H.
    apply perm_skip. apply IH. reflexivity.
Qed.

Variable K : value -> Prop.
Hypothesis HK : orderable K.

Lemma sort_insert_ok p l :
  K p.1 -> Forall (fun q => K q.1) l -> exists s, sort_insert p l = Ok s.
Proof using HK.
  intros Hp. induction 1 as [| q l Hq Hl IH]; simpl; [eauto |].
  destruct (ord_total K HK q.1 p.1 Hq Hp) as [[|] ->]; simpl; [| eauto].
  destruct IH as [s ->]. simpl. eauto.
Qed.

Lemma sort_keyed_ok l :
  Forall (fun q => K q.1) l ->
  exists s, sort_keyed l = Ok s /\ Forall (fun q => K q.1) s.
Proof using HK.
  induction 1 as [| p l Hp Hl IH]; simpl; [eauto |].
  destruct IH as (s & -> & Hs). simpl.
  destruct (sort_insert_ok p s Hp Hs) as [r Hr]. exists r. split; [exact Hr |].
  apply sort_insert_perm in Hr. rewrite <- Hr. constructor; assumption.
Qed.

(** Inserting into a sorted list gives a sorted list. *)
Lemma sort_insert_sorted p l s :
  K p.1 -> Forall (fun q => K q.1) l ->
  StronglySorted (fun a b => key_le a.1 b.1) l ->
  sort_insert p l = Ok s ->
  StronglySorted (fun a b => key_le a.1 b.1) s.
Proof using HK.
  intros Hp Hl Hsorted. revert s.
  induction Hsorted as [| q l Hsl IH Hq]; simpl; intros s.
  - intros [= <-]. repeat constructor.
  - inversion Hl as [| ? ? HKq HKl]; subst.
    destruct (py_lt q.1 p.1) as [[|] | e] eqn:E; simpl; try discriminate.
    + destruct (sort_insert p l) as [r | e] eqn:Er; simpl; try discriminate.
      intros [= <-]. constructor; [apply (IH HKl); reflexivity |].
      apply sort_insert_perm in Er. rewrite <- Er.
      constructor; [| exact Hq].
      apply (ord_asym K HK); assumption.
    + intros [= <-]. constructor; [constructor; assumption |].
      constructor; [exact E |].
      rewrite List.Forall_forall in Hq, HKl. apply List.Forall_forall.
      intros x Hx.
      apply (ord_trans K HK p.1 q.1 x.1);
        [exact Hp | exact HKq | apply HKl, Hx | exact E | apply Hq, Hx].
Qed.

Lemma sort_keyed_sorted l s :
  Forall (fun q => K q.1) l ->
  sort_keyed l = Ok s ->
  StronglySorted (fun a b => key_le a.1 b.1) s.
Proof using HK.
  intros Hl. revert s. induction Hl as [| p l Hp Hl IH]; simpl; intros s.
  - intros [= <-]. constructor.
  - destruct (sort_keyed_ok l Hl) as (r & Hr & HKr). rewrite Hr. simpl.
    apply sort_insert_sorted; [exact Hp | exact HKr |].
    apply IH. exact Hr.
Qed.

(** The sort is stable: the items whose keys are equivalent to a given
    key come out in the order they went in. *)
Lemma sort_insert_stable p l s k :
  K k -> K p.1 -> Forall (fun q => K q.1) l ->
  sort_insert p l = Ok s ->
  List.filter (fun q => key_eqv q.1 k) s =
  List.filter (fun q => key_eqv q.1 k) (p :: l).
Proof using HK.
  intros Hk Hp Hl. revert s.
  induction Hl as [| q l Hq Hl IH]; intros s.
  - simpl. intros [= <-]. reflexivity.
  - cbn [sort_insert].
    destruct (py_lt q.1 p.1) as [[|] | e] eqn:E; simpl; try discriminate.
    + destruct (sort_insert p l) as [r | e] eqn:Er; simpl; try discriminate.
      intros [= <-]. simpl. rewrite (IH r eq_refl). simpl.
      destruct (key_eqv q.1 k) eqn:Eq, (key_eqv p.1 k) eqn:Ep; try reflexivity.
      exfalso. pose proof (ord_eqv K HK q.1 p.1 k Hq Hp Hk Eq Ep) as Hno.
      congruence.
    + intros [= <-]. reflexivity.
Qed.

Lemma sort_keyed_stable l s k :
  K k -> Forall (fun q => K q.1) l ->
  sort_keyed l = Ok s ->
  List.filter (fun q => key_eqv q.1 k) s =
  List.filter (fun q => key_eqv q.1 k) l.
Proof using HK.
  intros Hk Hl. revert s. induction Hl as [| p l Hp Hl IH]; simpl; intros s.
  - intros [= <-]. reflexivity.
  - destruct (sort_keyed_ok l Hl) as (r & Hr & HKr). rewrite Hr. simpl.
    intros Hs. rewrite (sort_insert_stable p r s k Hk Hp HKr Hs). simpl.
    rewrite (IH r Hr). reflexivity.
Qed.
End SortFacts.

(** ** What [sorted] returns on orderable keys *)

Lemma tuple_map_pure {A B : Type} (f : A -> result B) (g : A -> B) (xs : list A) :
  (forall x, In x xs -> f x = Ok (g x)) -> tuple_map f xs = Ok (map g xs).
Proof.
  induction xs as [| x xs IH]; intros Hf; simpl; [reflexivity |].
  rewrite (Hf x (or_introl eq_refl)). simpl.
  rewrite IH by (intros y Hy; apply Hf; right; exact Hy). reflexivity.
Qed.

Lemma zip_map_key {A : Type} (g : A -> value) (xs : list A) :
  zip (map g xs) xs = map (fun x => (g x, x)) xs.
Proof. induction xs as [| x xs IH]; simpl; [reflexivity | rewrite IH; reflexivity]. Qed.

Lemma StronglySorted_map_inv {A B : Type} (R : B -> B -> Prop) (g : A -> B) (xs : list A) :
  StronglySorted R (map g xs) -> StronglySorted (fun a b => R (g a) (g b)) xs.
Proof.
  induction xs as [| x xs IH]; simpl; intros H; [constructor |].
  inversion H as [| ? ? Hs Hall]; subst. constructor; [apply IH, Hs |].
  rewrite List.Forall_map in Hall. exact Hall.
Qed.

Lemma StronglySorted_snoc {A : Type} (R : A -> A -> Prop) (xs : list A) (x : A) :
  StronglySorted R xs -> Forall (fun y => R y x) xs -> StronglySorted R (xs ++ [x]).
Proof.
  induction 1 as [| y xs Hs IH Hy]; simpl; intros Hall.
  - repeat constructor.
  - inversion Hall as [| ? ? Hyx Hrest]; subst.
    constructor; [apply IH, Hrest |].
    apply List.Forall_app. split; [exact Hy | repeat constructor; exact Hyx].
Qed.

Lemma StronglySorted_rev {A : Type} (R : A -> A -> Prop) (xs : list A) :
  StronglySorted R xs -> StronglySorted (fun a b => R b a) (rev xs).
Proof.
  induction 1 as [| x xs Hs IH Hx]; simpl; [constructor |].
  apply StronglySorted_snoc; [exact IH |].
  apply List.Forall_rev. exact Hx.
Qed.

(** The keyed items of a list whose keys are given by [kf]. *)
Lemma keyed_map_snd {A : Type} (kf : A -> value) (s : list (value * A)) :
  Forall (fun p => p.1 = kf p.2) s ->
  s = map (fun x => (kf x, x)) (map snd s).
Proof.
  induction 1 as [| [k x] s Hp Hs IH]; simpl; [reflexivity |].
  simpl in Hp. subst k. rewrite <- IH. reflexivity.
Qed.

Lemma filter_map_key {A : Type} (kf : A -> value) (P : value -> bool) (xs : list A) :
  map snd (List.filter (fun p => P p.1) (map (fun x => (kf x, x)) xs)) =
  List.filter (fun x => P (kf x)) xs.
Proof.
  induction xs as [| x xs IH]; simpl; [reflexivity |].
  destruct (P (kf x)); simpl; rewrite IH; reflexivity.
Qed.

Section SortedFacts.
Context {A : Type}.
Variable K : value -> Prop.
Hypothesis HK : orderable K.
Variable fkey : A -> result value.
Variable kf : A -> value.

(** When the key function succeeds on every item and [<] orders the keys,
    [sorted] returns a permutation of the items that is in order and in
    which items with equivalent keys keep their relative order. *)
Lemma sorted_spec (items : list A) (reverse : bool) :
  (forall x, In x items -> fkey x = Ok (kf x) /\ K (kf x)) ->
  exists out,
    sorted items fkey reverse = Ok out /\
    Permutation items out /\
    StronglySorted (in_order kf reverse) out /\
    (forall k, K k ->
        List.filter (fun x => key_eqv (kf x) k) out =
        List.filter (fun x => key_eqv (kf x) k) items).
Proof using HK.
  intros Hitems. unfold sorted.
  rewrite (tuple_map_pure fkey kf items) by (intros x Hx; apply Hitems, Hx).
  simpl. rewrite zip_map_key.
  set (keyed := map (fun x => (kf x, x)) items).
  set (l := if reverse then rev keyed else keyed).
  assert (Hkeyed : Forall (fun p : value * A => p.1 = kf p.2 /\ K p.1) keyed).
  { apply List.Forall_forall. intros p Hp. unfold keyed in Hp.
    apply List.in_map_iff in Hp as (x & <- & Hx). simpl.
    split; [reflexivity | apply Hitems, Hx]. }
  assert (Hperm_l : Permutation keyed l).
  { unfold l. destruct reverse; [apply Permutation_rev | reflexivity]. }
  assert (Hl : Forall (fun p : value * A => p.1 = kf p.2 /\ K p.1) l).
  { rewrite <- Hperm_l. exact Hkeyed. }
  assert (HlK : Forall (fun p : value * A => K p.1) l).
  { eapply Forall_impl; [exact Hl | intros p [_ Hp]; exact Hp]. }
  destruct (sort_keyed_ok K HK l HlK) as (s & Hs & _). rewrite Hs. simpl.
  pose proof (sort_keyed_perm l s Hs) as Hperm.
  pose proof (sort_keyed_sorted K HK l s HlK Hs) as Hsorted.
  assert (Hs_form : s = map (fun x => (kf x, x)) (map snd s)).
  { apply keyed_map_snd. rewrite <- Hperm.
    eapply Forall_impl; [exact Hl | intros p [Hp _]; exact Hp]. }
  assert (Hitems_eq : map snd keyed = items).
  { unfold keyed. rewrite List.map_map. simpl. apply List.map_id. }
  eexists. split; [reflexivity |]. split; [| split].
  - rewrite <- Hitems_eq at 1.
    assert (Hps : Permutation keyed s) by (rewrite Hperm_l; exact Hperm).
    destruct reverse.
    + rewrite <- Permutation_rev. apply Permutation_map, Hps.
    + apply Permutation_map, Hps.
  - rewrite Hs_form in Hsorted. apply StronglySorted_map_inv in Hsorted.
    simpl in Hsorted. destruct reverse; simpl.
    + rewrite List.map_rev. apply StronglySorted_rev in Hsorted. exact Hsorted.
    + exact Hsorted.
  - intros k Hk.
    pose proof (sort_keyed_stable K HK l s k Hk HlK Hs) as Hstable.
    apply (f_equal (map snd)) in Hstable.
    assert (Hfm : forall xs : list A,
               map snd (List.filter (fun q : value * A => key_eqv q.1 k)
                          (map (fun x => (kf x, x)) xs)) =
               List.filter (fun x => key_eqv (kf x) k) xs).
    { intros xs. exact (filter_map_key kf (fun v => key_eqv v k) xs). }
    rewrite Hs_form in Hstable at 1. rewrite Hfm in Hstable.
    unfold l in Hstable. destruct reverse.
    + rewrite List.map_rev, List.filter_rev, Hstable.
      unfold keyed. rewrite <- (List.map_rev (fun x => (kf x, x)) items), Hfm.
      rewrite List.filter_rev, rev_involutive. reflexivity.
    + rewrite Hstable. unfold keyed. apply Hfm.
Qed.
End SortedFacts.

(** ** Keys that are tuples of numbers *)

Lemma py_lt_number_tuple (xs ys : list Z) :
  py_lt (VTuple (map VInt xs)) (VTuple (map VInt ys)) = Ok (lex_ltb xs ys).
Proof.
  simpl. revert ys.
  induction xs as [| x xs IH]; intros [| y ys]; simpl; try reflexivity.
  destruct (x =? y); [apply IH | reflexivity].
Qed.

Lemma lex_ltb_asym (xs ys : list Z) : lex_ltb xs ys = true -> lex_ltb ys xs = false.
Proof.
  revert ys. induction xs as [| x xs IH]; intros [| y ys]; simpl; try congruence.
  rewrite (Z.eqb_sym y x).
  destruct (x =? y) eqn:E; [apply IH |].
  intros H. apply Z.ltb_lt in H. apply Z.ltb_ge. lia.
Qed.

Lemma lex_ltb_le_trans (xs ys zs : list Z) :
  lex_ltb ys xs = false -> lex_ltb zs ys = false -> lex_ltb zs xs = false.
Proof.
  revert ys zs.
  induction xs as [| x xs IH]; intros [| y ys] [| z zs]; simpl; try congruence.
  destruct (Z.eqb_spec y x), (Z.eqb_spec z y), (Z.eqb_spec z x);
    rewrite ?Z.ltb_ge; try lia.
  apply IH.
Qed.

Lemma lex_ltb_eqv (xs ys : list Z) :
  lex_ltb xs ys = false -> lex_ltb ys xs = false -> xs = ys.
Proof.
  revert ys. induction xs as [| x xs IH]; intros [| y ys]; simpl; try congruence.
  rewrite (Z.eqb_sym y x).
  destruct (x =? y) eqn:E.
  - apply Z.eqb_eq in E. subst y. intros H1 H2. f_equal. apply IH; assumption.
  - apply Z.eqb_neq in E. rewrite !Z.ltb_ge. lia.
Qed.

Lemma lex_ltb_irrefl (xs : list Z) : lex_ltb xs xs = false.
Proof. induction xs as [| x xs IH]; simpl; [reflexivity |]. rewrite Z.eqb_refl. exact IH. Qed.

Lemma orderable_number_tuple : orderable number_tuple.
Proof.
  split.
  - intros a b [xs ->] [ys ->]. rewrite py_lt_number_tuple. eauto.
  - intros a b [xs ->] [ys ->]. rewrite !py_lt_number_tuple.
    intros [= H]. f_equal. apply lex_ltb_asym, H.
  - intros a b c [xs ->] [ys ->] [zs ->]. unfold key_le.
    rewrite !py_lt_number_tuple. intros [= H1] [= H2]. f_equal.
    eapply lex_ltb_le_trans; eassumption.
  - intros a b k [xs ->] [ys ->] [zs ->]. unfold key_eqv.
    rewrite !py_lt_number_tuple.
    destruct (lex_ltb xs zs) eqn:E1, (lex_ltb zs xs) eqn:E2; try discriminate.
    destruct (lex_ltb ys zs) eqn:E3, (lex_ltb zs ys) eqn:E4; try discriminate.
    intros _ _. rewrite (lex_ltb_eqv _ _ E1 E2), (lex_ltb_eqv _ _ E3 E4).
    rewrite lex_ltb_irrefl. reflexivity.
Qed.

(** ** What [sort_by_keys] returns *)

Lemma sort_by_keys_equal_lengths (docs keys defaults : list value) (reverse : bool) :
  len defaults = len keys ->
  len defaults <= 256 ->
  sort_by_keys docs keys defaults reverse =
  sorted docs (composite_key keys defaults) reverse.
Proof.
  intros Heq Hsmall. unfold sort_by_keys. rewrite int_is_small.
  - apply Z.eqb_eq in Heq. rewrite Heq. reflexivity.
  - unfold small_int. pose proof (len_nonneg defaults).
    apply andb_true_intro. split; apply Z.leb_le; lia.
Qed.

(** With as many defaults as keys (at most 256), and documents whose
    composite keys [<] orders, [sort_by_keys] returns the documents
    sorted by composite key, stably. *)
Lemma sort_by_keys_sorts (K : value -> Prop) (kf : value -> value)
    (docs keys defaults : list value) (reverse : bool) :
  orderable K ->
  len defaults = len keys ->
  len defaults <= 256 ->
  (forall d, In d docs -> composite_key keys defaults d = Ok (kf d) /\ K (kf d)) ->
  exists out,
    sort_by_keys docs keys defaults reverse = Ok out /\
    Permutation docs out /\
    StronglySorted (in_order kf reverse) out /\
    (forall k, K k ->
        List.filter (fun x => key_eqv (kf x) k) out =
        List.filter (fun x => key_eqv (kf x) k) docs).
Proof.
  intros HK Heq Hsmall Hdocs.
  rewrite (sort_by_keys_equal_lengths _ _ _ _ Heq Hsmall).
  apply (sorted_spec K HK). exact Hdocs.
Qed.

(** The lemma applies to documents sorted by a numeric weight, a missing
    weight counting as 0. *)
Example sort_by_keys_sorts_weights :
  exists out,
    sort_by_keys docs_weighted [VStr "weight"] [VInt 0] false = Ok out /\
    Permutation docs_weighted out /\
    StronglySorted (in_order (composite_key_of [VStr "weight"] [VInt 0]) false) out.
Proof.
  destruct (sort_by_keys_sorts number_tuple
              (composite_key_of [VStr "weight"] [VInt 0])
              docs_weighted [VStr "weight"] [VInt 0] false
              orderable_number_tuple eq_refl)
    as (out & Hrun & Hperm & Hsorted & _).
  - unfold len. simpl. lia.
  - intros d [<- | [<- | [<- | []]]]; (split; [reflexivity |]).
    + exists [2]. reflexivity.
    + exists [0]. reflexivity.
    + exists [1]. reflexivity.
  - exists out. auto.
Qed.

(** * Further properties *)

(** ** The entries of an updated dictionary *)

Section DictOrder.
Context {V : Type}.
Implicit Types (d e : list (string * V)) (k : string) (v : V).

Lemma dict_lookup_in_keys k d :
  In k (dict_keys d) <-> exists v, dict_lookup k d = Some v.
Proof using Type.
  unfold dict_keys. induction d as [| [k0 v0] d IH]; simpl.
  - split; [intros [] | intros [v Hv]; discriminate].
  - destruct (String.eqb k k0) eqn:E.
    + apply String.eqb_eq in E. subst k0. split; eauto.
    + apply String.eqb_neq in E. rewrite <- IH. split.
      * intros [H | H]; [congruence | exact H].
      * intros H. right. exact H.
Qed.

Lemma dict_set_absent k v d :
  ~ In k (dict_keys d) -> dict_set k v d = d ++ [(k, v)].
Proof using Type.
  unfold dict_keys. induction d as [| [k0 v0] d IH]; simpl; intros Hnot; [reflexivity |].
  destruct (String.eqb k k0) eqn:E.
  - apply String.eqb_eq in E. subst k0. exfalso. apply Hnot. left. reflexivity.
  - rewrite IH; [reflexivity |]. intros H. apply Hnot. right. exact H.
Qed.

Lemma dict_set_present_keys k v d :
  In k (dict_keys d) -> dict_keys (dict_set k v d) = dict_keys d.
Proof using Type.
  unfold dict_keys. induction d as [| [k0 v0] d IH]; simpl; intros Hin; [destruct Hin |].
  destruct (String.eqb k k0) eqn:E; simpl.
  - apply String.eqb_eq in E. subst k0. reflexivity.
  - apply String.eqb_neq in E. rewrite IH; [reflexivity |].
    destruct Hin as [H | H]; [congruence | exact H].
Qed.

Lemma dict_set_same k v d :
  dict_lookup k d = Some v -> dict_set k v d = d.
Proof using Type.
  induction d as [| [k0 v0] d IH]; simpl; [discriminate |].
  destruct (String.eqb k k0) eqn:E.
  - apply String.eqb_eq in E. subst k0. intros [= ->]. reflexivity.
  - intros H. rewrite (IH H). reflexivity.
Qed.

Lemma dict_set_wf k v d : dict_wf d -> dict_wf (dict_set k v d).
Proof using Type.
  unfold dict_wf. intros Hwf.
  destruct (in_dec string_dec k (dict_keys d)) as [Hin | Hnot].
  - rewrite dict_set_present_keys by exact Hin. exact Hwf.
  - rewrite dict_set_absent by exact Hnot. unfold dict_keys.
    rewrite List.map_app. simpl.
    apply List.NoDup_app; [exact Hwf | repeat constructor; intros [] |].
    intros x Hx [<- | []]. exact (Hnot Hx).
Qed.

Lemma dict_update_wf d e : dict_wf d -> dict_wf (dict_update d e).
Proof using Type.
  unfold dict_update. revert d.
  induction e as [| [k v] e IH]; intros d Hwf; simpl; [exact Hwf |].
  apply IH. apply dict_set_wf. exact Hwf.
Qed.

(** Pouring a dictionary into one that shares no key with it appends its
    entries. *)
Lemma dict_update_disjoint d e :
  dict_wf e ->
  (forall k, In k (dict_keys e) -> ~ In k (dict_keys d)) ->
  dict_update d e = d ++ e.
Proof using Type.
  unfold dict_update, dict_wf. revert d.
  induction e as [| [k v] e IH]; intros d Hwf Hdis; simpl.
  - rewrite app_nil_r. reflexivity.
  - inversion Hwf as [| ? ? Hk Hwf']; subst.
    rewrite dict_set_absent by (apply Hdis; left; reflexivity).
    rewrite IH; [rewrite <- app_assoc; reflexivity | exact Hwf' |].
    intros k' Hk'. unfold dict_keys. rewrite List.map_app, List.in_app_iff. simpl.
    intros [H | [<- | []]].
    + apply (Hdis k'); [right; exact Hk' | exact H].
    + exact (Hk Hk').
Qed.

Lemma dict_lookup_in_wf k v e :
  dict_wf e -> In (k, v) e -> dict_lookup k e = Some v.
Proof using Type.
  unfold dict_wf, dict_keys. induction e as [| [k0 v0] e IH]; simpl; intros Hwf Hin; [destruct Hin |].
  inversion Hwf as [| ? ? Hk Hwf']; subst.
  destruct Hin as [[= -> ->] | Hin].
  - rewrite String.eqb_refl. reflexivity.
  - destruct (String.eqb k k0) eqn:E; [| apply IH; assumption].
    apply String.eqb_eq in E. subst k0. exfalso. apply Hk.
    apply List.in_map_iff. exists (k, v). auto.
Qed.

(** An update that stores what is already there changes nothing. *)
Lemma dict_update_fixed d e :
  (forall k v, In (k, v) e -> dict_lookup k d = Some v) ->
  dict_update d e = d.
Proof using Type.
  unfold dict_update. induction e as [| [k v] e IH]; intros He; simpl; [reflexivity |].
  rewrite (dict_set_same k v d) by (apply He; left; reflexivity).
  apply IH. intros k' v' H. apply He. right. exact H.
Qed.

(** The keys after an update: those of [d], in their order, then the keys
    that are new. *)
Lemma dict_update_keys d e :
  exists extra,
    dict_keys (dict_update d e) = dict_keys d ++ extra /\
    forall k, In k extra <-> In k (dict_keys e) /\ ~ In k (dict_keys d).
Proof using Type.
  unfold dict_update. revert d.
  induction e as [| [k v] e IH]; intros d; simpl.
  - exists []. rewrite app_nil_r. split; [reflexivity |].
    intros k. simpl. tauto.
  - destruct (IH (dict_set k v d)) as (extra & Hkeys & Hextra).
    destruct (in_dec string_dec k (dict_keys d)) as [Hin | Hnot].
    + exists extra. rewrite Hkeys, dict_set_present_keys by exact Hin.
      split; [reflexivity |]. intros k'. rewrite Hextra.
      rewrite dict_set_present_keys by exact Hin.
      split; [intros [H1 H2]; split; [right; exact H1 | exact H2] |].
      intros [[<- | H1] H2]; [contradiction | split; assumption].
    + exists (k :: extra). rewrite Hkeys, dict_set_absent by exact Hnot.
      unfold dict_keys. rewrite List.map_app, <- app_assoc. simpl.
      split; [reflexivity |]. intros k'. simpl. rewrite Hextra.
      rewrite dict_set_absent by exact Hnot.
      unfold dict_keys. rewrite List.map_app, List.in_app_iff. simpl.
      destruct (string_dec k k') as [<- | Hne]; [tauto |]. tauto.
Qed.
End DictOrder.

Ltac dict_wf_closed :=
  unfold dict_wf, dict_keys; simpl;
  repeat (constructor; [simpl; intuition discriminate |]); constructor.

(** ** [merge] and [replace] on dictionaries *)

(** X1. [merge(a, b)] is the right-biased union of two dictionaries: a
    key of [b] has the value [b] gives it, any other key the value it has
    in [a]; and the result holds each key once. *)
Theorem merge_right_biased (a b : list (string * value))
    (Ha : dict_wf a) (Hb : dict_wf b) :
  (forall k,
      dict_lookup k (merge a b) =
        match dict_lookup k b with
        | Some v => Some v
        | None => dict_lookup k a
        end) /\
  dict_wf (merge a b).
Proof.
  split.
  - intros k. unfold merge.
    rewrite (dict_lookup_update k _ b Hb), (dict_lookup_update k [] a Ha).
    simpl. destruct (dict_lookup k b), (dict_lookup k a); reflexivity.
  - unfold merge. apply dict_update_wf, dict_update_wf. constructor.
Qed.

Lemma merge_right_biased_witness :
  dict_lookup "title" (merge dict_home dict_start) = Some (VStr "Start") /\
  dict_lookup "lang" (merge dict_home dict_start) = Some (VStr "en") /\
  dict_wf (merge dict_home dict_start).
Proof.
  assert (Ha : dict_wf dict_home) by dict_wf_closed.
  assert (Hb : dict_wf dict_start) by dict_wf_closed.
  destruct (merge_right_biased dict_home dict_start Ha Hb) as [Hlook Hwf].
  split; [| split].
  - rewrite Hlook. reflexivity.
  - rewrite Hlook. reflexivity.
  - exact Hwf.
Defined.

(** X2. For a dictionary [a] and keyword fields [b] none of which is
    named [d], [replace(a, **b)] returns the dictionary [merge(a, b)],
    entry for entry and in the same order.  With a field named [d] the
    two differ: [replace] raises [TypeError], [merge] returns.  Merging
    the empty dictionary, on either side, gives the other argument back. *)
Theorem merge_agrees_with_replace (a b : list (string * value))
    (Ha : dict_wf a)
    (Hb : dict_lookup "d" b = None) :
  replace (VDict a) b = Ok (VDict (merge a b)) /\
  (forall b' v, dict_lookup "d" b' = Some v ->
                replace (VDict a) b' = Raise TypeError) /\
  merge a [] = a /\
  merge [] a = a.
Proof.
  assert (Hnil : dict_update [] a = a).
  { rewrite (dict_update_disjoint [] a Ha); [reflexivity |]. intros k _ []. }
  split; [| split; [| split]].
  - rewrite (replace_ok a b Hb). unfold merge. rewrite Hnil. reflexivity.
  - intros b' v Hd. exact (replace_keyword_d a b' v Hd).
  - unfold merge. simpl. exact Hnil.
  - unfold merge. simpl. exact Hnil.
Qed.

Lemma merge_agrees_with_replace_witness :
  replace (VDict dict_home) dict_start = Ok (VDict (merge dict_home dict_start)) /\
  merge dict_home dict_start =
    [("title", VStr "Start"); ("lang", VStr "en"); ("draft", VBool true)] /\
  replace (VDict dict_home) [("d", VInt 5)] = Raise TypeError.
Proof.
  assert (Ha : dict_wf dict_home) by dict_wf_closed.
  destruct (merge_agrees_with_replace dict_home dict_start Ha eq_refl)
    as (Heq & Hraise & _).
  split; [exact Heq |]. split; [reflexivity |].
  exact (Hraise [("d", VInt 5)] (VInt 5) eq_refl).
Defined.

(** X3. [replace(d, **fs)], for fields none of which is named [d],
    returns a dictionary that keeps the keys of [d] in their order and
    has the keys that are new after them; it holds each key once. *)
Theorem replace_keeps_key_order (d fs : list (string * value))
    (Hd : dict_wf d)
    (Hfs : dict_lookup "d" fs = None) :
  exists r extra,
    replace (VDict d) fs = Ok (VDict r) /\
    dict_keys r = dict_keys d ++ extra /\
    (forall k, In k extra <-> In k (dict_keys fs) /\ ~ In k (dict_keys d)) /\
    dict_wf r.
Proof.
  destruct (dict_update_keys d fs) as (extra & Hkeys & Hextra).
  exists (dict_update d fs), extra.
  split; [apply replace_ok, Hfs |].
  split; [exact Hkeys |]. split; [exact Hextra |].
  apply dict_update_wf, Hd.
Qed.

Lemma replace_keeps_key_order_witness :
  exists r extra,
    replace (VDict dict_home) dict_start = Ok (VDict r) /\
    dict_keys r = ["title"; "lang"] ++ extra /\
    dict_wf r.
Proof.
  assert (Hd : dict_wf dict_home) by dict_wf_closed.
  destruct (replace_keeps_key_order dict_home dict_start Hd eq_refl)
    as (r & extra & Hrun & Hkeys & _ & Hwf).
  exists r, extra. split; [exact Hrun |]. split; [exact Hkeys | exact Hwf].
Defined.

(** X4. Replacing the same fields twice is replacing them once: for
    fields none of which is named [d], the dictionary [replace(d, **fs)]
    returns is returned again by [replace] with the same fields. *)
Theorem replace_idempotent (d fs : list (string * value))
    (Hfs : dict_wf fs)
    (Hname : dict_lookup "d" fs = None) :
  exists r,
    replace (VDict d) fs = Ok (VDict r) /\
    replace (VDict r) fs = Ok (VDict r).
Proof.
  exists (dict_update d fs).
  split; [apply replace_ok, Hname |].
  rewrite (replace_ok _ fs Hname). do 2 f_equal.
  apply dict_update_fixed.
  intros k v Hin. rewrite (dict_lookup_update k d fs Hfs).
  rewrite (dict_lookup_in_wf k v fs Hfs Hin). reflexivity.
Qed.

Lemma replace_idempotent_witness :
  exists r,
    replace (VDict dict_home) dict_start = Ok (VDict r) /\
    replace (VDict r) dict_start = Ok (VDict r).
Proof.
  apply replace_idempotent; [dict_wf_closed | reflexivity].
Defined.

(** ** [merge] on the object store *)

Lemma dict_update_at_eq (h : gmap Store.loc Store.obj) (e : Store.loc)
    (entries kwargs : list (string * Store.sval)) :
  h !! e = Some (Store.ODict entries) ->
  Store.dict_update_at h e kwargs =
    Some (<[e := Store.ODict (dict_update entries kwargs)]> h).
Proof.
  intros He. unfold Store.dict_update_at.
  rewrite (proj2 (dict_at_Some h e entries) He). reflexivity.
Qed.

(** X5. [merge(a, b)] on two dictionaries of the store (possibly the same
    one) returns a dictionary that did not exist before, holding the
    entries of [a] overwritten by those of [b]; every object that existed
    before the call, [a] and [b] included, is unchanged. *)
Theorem merge_returns_new_dict
    (h : gmap Store.loc Store.obj) (a b : Store.loc)
    (ea eb : list (string * Store.sval))
    (Ha : h !! a = Some (Store.ODict ea))
    (Hb : h !! b = Some (Store.ODict eb)) :
  exists h' d,
    Store.merge h a b = Some (h', d) /\
    h !! d = None /\
    h' !! d = Some (Store.ODict (dict_update (dict_update [] ea) eb)) /\
    h' !! a = Some (Store.ODict ea) /\
    h' !! b = Some (Store.ODict eb) /\
    (forall l, l <> d -> h' !! l = h !! l).
Proof.
  set (d := fresh (dom h)).
  pose proof (fresh_unallocated h) as Hfresh. fold d in Hfresh.
  assert (Had : a <> d) by (intros E; rewrite E in Ha; congruence).
  assert (Hbd : b <> d) by (intros E; rewrite E in Hb; congruence).
  exists (<[d := Store.ODict (dict_update (dict_update [] ea) eb)]> h), d.
  split.
  { unfold Store.merge. fold d.
    rewrite (proj2 (dict_at_Some _ a ea)) by (rewrite lookup_insert_ne by congruence; exact Ha).
    simpl.
    rewrite (dict_update_at_eq _ d [] ea) by apply lookup_insert_eq. simpl.
    rewrite insert_insert_eq.
    rewrite (proj2 (dict_at_Some _ b eb)) by (rewrite lookup_insert_ne by congruence; exact Hb).
    simpl.
    rewrite (dict_update_at_eq _ d (dict_update [] ea) eb) by apply lookup_insert_eq.
    simpl. rewrite insert_insert_eq. reflexivity. }
  split; [exact Hfresh |].
  split; [apply lookup_insert_eq |].
  split; [rewrite lookup_insert_ne by congruence; exact Ha |].
  split; [rewrite lookup_insert_ne by congruence; exact Hb |].
  intros l Hl. apply lookup_insert_ne. congruence.
Qed.

Lemma merge_returns_new_dict_witness :
  exists h' d,
    Store.merge store_two 1%positive 2%positive = Some (h', d) /\
    h' !! d = Some (Store.ODict [("title", Store.SStr "Start"); ("lang", Store.SStr "en")]) /\
    h' !! 1%positive = store_two !! 1%positive /\
    h' !! 2%positive = store_two !! 2%positive.
Proof.
  assert (Ha : store_two !! 1%positive =
               Some (Store.ODict [("title", Store.SStr "Home"); ("lang", Store.SStr "en")]))
    by reflexivity.
  assert (Hb : store_two !! 2%positive = Some (Store.ODict [("title", Store.SStr "Start")]))
    by reflexivity.
  destruct (merge_returns_new_dict store_two 1%positive 2%positive _ _ Ha Hb)
    as (h' & d & Hrun & _ & Hat & Ha' & Hb' & _).
  exists h', d. split; [exact Hrun |]. split; [exact Hat |].
  split; [exact (eq_trans Ha' (eq_sym Ha)) | exact (eq_trans Hb' (eq_sym Hb))].
Defined.

(** ** Queries *)

Lemma gen_filter_ext {A : Type} (p q : A -> result bool) (xs : list A) :
  (forall x, In x xs -> p x = q x) -> gen_filter p xs = gen_filter q xs.
Proof.
  induction xs as [| x xs IH]; intros Hpq; simpl; [reflexivity |].
  rewrite (Hpq x (or_introl eq_refl)).
  rewrite IH by (intros y Hy; apply Hpq; right; exact Hy). reflexivity.
Qed.

(** A filter and its negation: they end in the same way, and when they
    run to the end they split the input between them. *)
Lemma gen_filter_negation {A : Type} (p : A -> result bool) (xs : list A) :
  failure (gen_filter (fun x => b ← p x; Ok (negb b)) xs) = failure (gen_filter p xs) /\
  (failure (gen_filter p xs) = None ->
   forall t : A -> bool,
     (forall x b, p x = Ok b -> t x = b) ->
     yielded (gen_filter p xs) = List.filter t xs /\
     yielded (gen_filter (fun x => b ← p x; Ok (negb b)) xs) =
       List.filter (fun x => negb (t x)) xs).
Proof.
  induction xs as [| x xs [IHf IHy]]; simpl.
  - split; [reflexivity |]. intros _ t _. split; reflexivity.
  - destruct (p x) as [b | e] eqn:E; simpl; [| split; [reflexivity | discriminate]].
    split; [exact IHf |]. intros Hnone t Ht.
    destruct (IHy Hnone t Ht) as [Hy1 Hy2].
    rewrite (Ht x b E), Hy1, Hy2. destruct b; split; reflexivity.
Qed.

Lemma gen_filter_sound {A : Type} (p : A -> result bool) (xs : list A) (x : A) :
  In x (yielded (gen_filter p xs)) -> p x = Ok true.
Proof.
  induction xs as [| y xs IH]; simpl; [intros [] |].
  destruct (p y) as [[|] | e] eqn:E; simpl.
  - intros [<- | Hin]; [exact E | apply IH, Hin].
  - exact IH.
  - intros [].
Qed.

(** X6. [where_not] is the complement of [where]: on the same input the
    two end in the same way (both run to the end, or both raise the same
    exception at the same document); no document is yielded by both; and
    when they run to the end, [where] yields the documents whose value at
    the key equals [v] and [where_not] the others, each in input order. *)
Theorem where_not_complements_where (ds : list value) (key v : value) :
  failure (where_not ds key v) = failure (where_ ds key v) /\
  (forall d, In d (yielded (where_ ds key v)) ->
             In d (yielded (where_not ds key v)) -> False) /\
  (failure (where_ ds key v) = None ->
   yielded (where_ ds key v) = List.filter (fun d => py_eq (value_at d key) v) ds /\
   yielded (where_not ds key v) =
     List.filter (fun d => negb (py_eq (value_at d key) v)) ds).
Proof.
  set (p := fun x => w ← get_deep x key VNone; Ok (py_eq w v)).
  assert (Hnot : where_not ds key v = gen_filter (fun x => b ← p x; Ok (negb b)) ds).
  { unfold where_not. apply gen_filter_ext. intros x _. unfold p.
    destruct (get_deep x key VNone); reflexivity. }
  rewrite Hnot. change (where_ ds key v) with (gen_filter p ds).
  destruct (gen_filter_negation p ds) as [Hf Hy].
  split; [exact Hf |]. split.
  - intros d H1 H2. apply gen_filter_sound in H1, H2.
    rewrite H1 in H2. discriminate H2.
  - intros Hnone. apply (Hy Hnone).
    intros x b. unfold p, value_at.
    destruct (get_deep x key VNone); simpl; congruence.
Qed.

(** X7. Asking for the value [None] is asking for absence: [where] with
    [None] is [where_not_key], and [where_not] with [None] is [where_key],
    on every input. *)
Theorem where_none_is_where_not_key (ds : list value) (key : value) :
  where_ ds key VNone = where_not_key ds key /\
  where_not ds key VNone = where_key ds key.
Proof.
  split.
  - unfold where_, where_not_key, has_key. apply gen_filter_ext. intros x _.
    destruct (get_deep x key VNone) as [w | e]; simpl; [| reflexivity].
    rewrite negb_involutive. reflexivity.
  - unfold where_not, where_key, has_key. reflexivity.
Qed.

Lemma any_in_singleton (c v : value) : any_in c (VList [v]) = py_in v c.
Proof.
  unfold any_in. simpl.
  destruct (py_in v c) as [[|] | e]; reflexivity.
Qed.

(** X8. [where_contains] is [where_contains_any] with a single term, on
    every input, errors included. *)
Theorem where_contains_is_contains_any_singleton (ds : list value) (key v : value) :
  where_contains ds key v = where_contains_any ds key (VList [v]).
Proof.
  unfold where_contains, where_contains_any, contains.
  apply gen_filter_ext. intros x _.
  destruct (get_deep x key _EMPTY_TUPLE) as [c | e]; simpl; [| reflexivity].
  symmetry. apply any_in_singleton.
Qed.

Lemma any_in_loop_app_false (c : value) (pre rest : list value) :
  (forall u, In u pre -> py_in u c = Ok false) ->
  any_in_loop c (pre ++ rest) = any_in_loop c rest.
Proof.
  induction pre as [| u pre IH]; intros Hpre; simpl; [reflexivity |].
  rewrite (Hpre u (or_introl eq_refl)). simpl.
  apply IH. intros w Hw. apply Hpre. right. exact Hw.
Qed.

(** X9. [any_in] stops at the first term it finds: when the terms before
    [t] are not in the collection and [t] is, the answer is [True]
    whatever follows [t], even terms whose test would raise.  With no
    terms the answer is [False] for any collection, iterable or not. *)
Theorem any_in_stops_at_first_hit (c t : value) (pre post : list value)
    (Hpre : forall u, In u pre -> py_in u c = Ok false)
    (Ht : py_in t c = Ok true) :
  any_in c (VList (pre ++ t :: post)) = Ok true /\
  any_in c (VTuple (pre ++ t :: post)) = Ok true /\
  (forall c', any_in c' (VList []) = Ok false).
Proof.
  assert (H : any_in_loop c (pre ++ t :: post) = Ok true).
  { rewrite (any_in_loop_app_false c pre _ Hpre). simpl. rewrite Ht. reflexivity. }
  unfold any_in. simpl. rewrite H. repeat split.
Qed.

Lemma any_in_stops_at_first_hit_witness :
  any_in (VStr "abc") (VList [VStr "z"; VStr "bc"; VInt 5]) = Ok true /\
  any_in (VStr "abc") (VList [VInt 5; VStr "bc"]) = Raise TypeError.
Proof.
  split.
  - apply (any_in_stops_at_first_hit (VStr "abc") (VStr "bc") [VStr "z"] [VInt 5]).
    + intros u [<- | []]. reflexivity.
    + reflexivity.
  - reflexivity.
Defined.

Lemma steps_end_not_none (d x : value) (keys : list value) :
  steps d keys x -> keys <> [] -> py_eq x VNone = false.
Proof.
  induction 1 as [d | d key d' keys x Hget Hnn Hsteps IH]; [congruence |].
  intros _. destruct keys as [| key' keys'].
  - inversion Hsteps; subst. exact Hnn.
  - apply IH. discriminate.
Qed.

(** X10. [has_key] tells whether the key path leads to a value: it is
    [True] when the path can be followed to its end, whatever is found
    there, falsy or not, and [False] when a step of the path finds
    nothing; in that case [contains] is [False] for every value. *)
Theorem has_key_tells_presence (d key : value) (keys : list value)
    (Hkeys : key_path key = Ok keys) :
  (forall x, keys <> [] -> steps d keys x -> has_key d key = Ok true) /\
  (forall pre k post x,
      keys = pre ++ k :: post ->
      steps d pre x ->
      get x k VNone = Ok VNone ->
      has_key d key = Ok false /\ forall v, contains d key v = Ok false).
Proof.
  split.
  - intros x Hne Hsteps. unfold has_key.
    rewrite (get_deep_key_path _ _ _ _ Hkeys), (get_deep_loop_steps _ _ _ _ Hsteps).
    simpl. rewrite (steps_end_not_none _ _ _ Hsteps Hne). reflexivity.
  - intros pre k post x -> Hpre Hget. unfold has_key, contains.
    rewrite !(get_deep_key_path _ _ _ _ Hkeys).
    rewrite !(get_deep_loop_stop _ _ _ _ _ _ Hpre Hget). split; reflexivity.
Qed.

Lemma has_key_tells_presence_witness :
  has_key doc_ab (VStr "a.b") = Ok true /\
  has_key doc_ab (VStr "a.c") = Ok false /\
  contains doc_ab (VStr "a.z") (VInt 0) = Ok false.
Proof.
  assert (Ha : steps doc_ab [VStr "a"] (VDict [("b", VInt 0); ("c", VNone)])).
  { eapply steps_cons; [reflexivity | reflexivity | apply steps_nil]. }
  split; [| split].
  - destruct (has_key_tells_presence doc_ab (VStr "a.b") [VStr "a"; VStr "b"] eq_refl)
      as [Hyes _].
    apply (Hyes (VInt 0)); [discriminate |].
    eapply steps_cons; [reflexivity | reflexivity |].
    eapply steps_cons; [reflexivity | reflexivity | apply steps_nil].
  - destruct (has_key_tells_presence doc_ab (VStr "a.c") [VStr "a"; VStr "c"] eq_refl)
      as [_ Hno].
    exact (proj1 (Hno [VStr "a"] (VStr "c") [] _ eq_refl Ha eq_refl)).
  - destruct (has_key_tells_presence doc_ab (VStr "a.z") [VStr "a"; VStr "z"] eq_refl)
      as [_ Hno].
    exact (proj2 (Hno [VStr "a"] (VStr "z") [] _ eq_refl Ha eq_refl) (VInt 0)).
Defined.

(** ** Matching a key against a pattern *)

Lemma get_deep_single_key (x : value) (k : string) :
  sep_free "." k = true ->
  get_deep x (VStr k) VNone = get x (VStr k) VNone.
Proof.
  intros Hk. unfold get_deep. simpl key_path.
  rewrite (split_on_free "." k Hk). simpl.
  destruct (get x (VStr k) VNone) as [w | e]; simpl; [| reflexivity].
  destruct (py_eq w VNone) eqn:E; [| reflexivity].
  apply py_eq_none in E. subst w. reflexivity.
Qed.

(** X11. For a pattern other than ["*"], [match_by_id_path] is
    [where_matches] on the key [id_path], on every input.  For ["*"] they
    differ on a document without [id_path]: [match_by_id_path] yields it,
    [where_matches] raises. *)
Theorem match_by_id_path_is_where_matches
    (fnmatchcase : string -> string -> bool) (ds : list value) (pat : string)
    (Hpat : pat <> "*") :
  match_by_id_path fnmatchcase ds (VStr pat) =
    where_matches fnmatchcase ds (VStr "id_path") (VStr pat) /\
  (forall kvs rest,
      dict_lookup "id_path" kvs = None ->
      where_matches fnmatchcase (VDict kvs :: rest) (VStr "id_path") (VStr "*")
        = Gen [] (Some TypeError) /\
      match_by_id_path fnmatchcase (VDict kvs :: rest) (VStr "*")
        = Gen (VDict kvs :: rest) None).
Proof.
  split.
  - unfold match_by_id_path, where_matches. apply gen_filter_ext. intros x _.
    unfold id_path_matches.
    assert (E : py_eq (VStr pat) (VStr "*") = false).
    { simpl. apply String.eqb_neq. exact Hpat. }
    rewrite E. simpl negb. cbv iota.
    rewrite get_deep_single_key by reflexivity. reflexivity.
  - intros kvs rest Hmiss. split.
    + unfold where_matches. apply gen_filter_raises.
      rewrite get_deep_single_key by reflexivity.
      rewrite (get_missing _ _ Hmiss). reflexivity.
    + apply match_by_id_path_star.
Qed.

Lemma match_by_id_path_is_where_matches_witness :
  match_by_id_path glob_match [doc_post; doc_index] (VStr "posts/*") =
    where_matches glob_match [doc_post; doc_index] (VStr "id_path") (VStr "posts/*") /\
  where_matches glob_match [doc_post; doc_index] (VStr "id_path") (VStr "posts/*") =
    Gen [doc_post] None.
Proof.
  assert (Hpat : "posts/*" <> "*") by discriminate.
  destruct (match_by_id_path_is_where_matches glob_match [doc_post; doc_index]
              "posts/*" Hpat) as [Heq _].
  split; [exact Heq |]. rewrite <- Heq. reflexivity.
Defined.

Lemma gen_filter_app_raise {A : Type} (p : A -> result bool) (q : A -> bool)
    (pre post : list A) (d : A) (e : exn) :
  (forall x, In x pre -> p x = Ok (q x)) ->
  p d = Raise e ->
  gen_filter p (pre ++ d :: post) = Gen (List.filter q pre) (Some e).
Proof.
  intros Hpre Hd. induction pre as [| x pre IH]; simpl.
  - rewrite Hd. reflexivity.
  - rewrite (Hpre x (or_introl eq_refl)).
    rewrite IH by (intros y Hy; apply Hpre; right; exact Hy).
    simpl. destruct (q x); reflexivity.
Qed.

Lemma where_matches_test (fnmatchcase : string -> string -> bool)
    (x key : value) (pat : string) :
  (name ← get_deep x key VNone; fnmatch fnmatchcase name (VStr pat)) =
    match string_at x key with
    | Some s => Ok (fnmatchcase s pat)
    | None => Raise TypeError
    end.
Proof.
  unfold string_at. pose proof (nve_get_deep x key VNone) as Hnve.
  destruct (get_deep x key VNone) as [w | e]; simpl.
  - destruct w; reflexivity.
  - destruct e; [reflexivity | exfalso; apply Hnve; reflexivity].
Qed.

(** X12. [where_matches] yields the documents whose string at the key
    matches the pattern, in input order, as long as every document has a
    string there.  At the first document that has none (the key is
    absent, or holds something else) it raises [TypeError], after the
    matching documents before it have been yielded. *)
Theorem where_matches_needs_strings
    (fnmatchcase : string -> string -> bool) (key : value) (pat : string)
    (pre : list value)
    (Hpre : forall x, In x pre -> exists s, string_at x key = Some s) :
  let test := fun x =>
    match string_at x key with
    | Some s => fnmatchcase s pat
    | None => false
    end in
  where_matches fnmatchcase pre key (VStr pat) = Gen (List.filter test pre) None /\
  (forall d post,
      string_at d key = None ->
      where_matches fnmatchcase (pre ++ d :: post) key (VStr pat) =
        Gen (List.filter test pre) (Some TypeError)).
Proof.
  intros test.
  assert (Htest : forall x, In x pre ->
            (name ← get_deep x key VNone; fnmatch fnmatchcase name (VStr pat)) = Ok (test x)).
  { intros x Hx. rewrite where_matches_test. unfold test.
    destruct (Hpre x Hx) as [s ->]. reflexivity. }
  split.
  - unfold where_matches. apply gen_filter_total. exact Htest.
  - intros d post Hd. unfold where_matches.
    apply gen_filter_app_raise; [exact Htest |].
    rewrite where_matches_test, Hd. reflexivity.
Qed.

Lemma where_matches_needs_strings_witness :
  where_matches glob_match [doc_post; doc_index] (VStr "id_path") (VStr "posts/*")
    = Gen [doc_post] None /\
  where_matches glob_match ([doc_post; doc_index] ++ doc_untitled :: [doc_post])
      (VStr "id_path") (VStr "posts/*")
    = Gen [doc_post] (Some TypeError).
Proof.
  assert (Hpre : forall x, In x [doc_post; doc_index] ->
                           exists s, string_at x (VStr "id_path") = Some s).
  { intros x [<- | [<- | []]]; eexists; reflexivity. }
  destruct (where_matches_needs_strings glob_match (VStr "id_path") "posts/*"
              [doc_post; doc_index] Hpre) as [Hrun Hfail].
  split.
  - rewrite Hrun. reflexivity.
  - rewrite (Hfail doc_untitled [doc_post] eq_refl). reflexivity.
Defined.

(** ** Nested queries *)

Lemma gen_filter_from_fused {A : Type} (p1 p2 : A -> result bool) (xs : list A) :
  gen_filter_from p2 (gen_filter p1 xs) =
  gen_filter (fun x => b ← p1 x; if b : bool then p2 x else Ok false) xs.
Proof.
  unfold gen_filter_from.
  induction xs as [| x xs IH]; simpl; [reflexivity |].
  destruct (p1 x) as [[|] | e]; simpl.
  - destruct (p2 x) as [b | e]; simpl; [| reflexivity].
    rewrite <- IH. reflexivity.
  - rewrite <- IH. reflexivity.
  - reflexivity.
Qed.

Lemma gen_filter_runs {A : Type} (p : A -> result bool) (xs : list A) :
  failure (gen_filter p xs) = None ->
  forall x, In x xs -> exists b, p x = Ok b.
Proof.
  induction xs as [| y xs IH]; simpl; [intros _ x [] |].
  destruct (p y) as [b | e] eqn:E; simpl; [| discriminate].
  intros Hnone x [<- | Hx]; [eauto | apply IH; assumption].
Qed.

(** X13. Queries nest.  [where] applied to the output of [where] tests
    each document against the first condition and, only if it passes,
    against the second; it yields the documents that pass both and ends
    with the first exception met on the way.  When each of the two
    queries alone runs to the end on the input, the two orders of nesting
    give the same result: the documents that satisfy both conditions. *)
Theorem where_nests (ds : list value) (k1 v1 k2 v2 : value) :
  where_from (Gen ds None) k1 v1 = where_ ds k1 v1 /\
  where_from (where_ ds k1 v1) k2 v2 =
    gen_filter (fun x =>
                  w1 ← get_deep x k1 VNone;
                  if py_eq w1 v1 then w2 ← get_deep x k2 VNone; Ok (py_eq w2 v2)
                  else Ok false) ds /\
  (failure (where_ ds k1 v1) = None ->
   failure (where_ ds k2 v2) = None ->
   where_from (where_ ds k1 v1) k2 v2 =
     Gen (List.filter (fun d => py_eq (value_at d k1) v1 && py_eq (value_at d k2) v2) ds)
         None /\
   where_from (where_ ds k2 v2) k1 v1 = where_from (where_ ds k1 v1) k2 v2).
Proof.
  assert (Hfused : forall ka va kb vb,
            where_from (where_ ds ka va) kb vb =
            gen_filter (fun x =>
                  w1 ← get_deep x ka VNone;
                  if py_eq w1 va then w2 ← get_deep x kb VNone; Ok (py_eq w2 vb)
                  else Ok false) ds).
  { intros ka va kb vb. unfold where_from, where_.
    rewrite gen_filter_from_fused. apply gen_filter_ext. intros x _.
    destruct (get_deep x ka VNone); reflexivity. }
  assert (Hboth : forall ka va kb vb,
            failure (where_ ds ka va) = None ->
            failure (where_ ds kb vb) = None ->
            where_from (where_ ds ka va) kb vb =
            Gen (List.filter (fun d => py_eq (value_at d ka) va && py_eq (value_at d kb) vb) ds)
                None).
  { intros ka va kb vb Ha Hb. rewrite Hfused. apply gen_filter_total.
    intros x Hx.
    destruct (gen_filter_runs _ _ Ha x Hx) as [ba Hba].
    destruct (gen_filter_runs _ _ Hb x Hx) as [bb Hbb].
    unfold value_at.
    destruct (get_deep x ka VNone) as [wa | ea]; [| discriminate].
    destruct (get_deep x kb VNone) as [wb | eb]; [| discriminate].
    simpl. destruct (py_eq wa va); reflexivity. }
  split; [| split].
  - unfold where_from, gen_filter_from, where_. simpl.
    destruct (gen_filter _ ds) as [ys [e |]]; reflexivity.
  - apply Hfused.
  - intros H1 H2. split; [apply Hboth; assumption |].
    rewrite (Hboth k1 v1 k2 v2 H1 H2), (Hboth k2 v2 k1 v1 H2 H1).
    f_equal. apply List.filter_ext. intros d. apply andb_comm.
Qed.

Lemma where_nests_witness :
  where_from (where_ [doc_a1; doc_a2; doc_a1] (VStr "a") (VInt 1)) (VStr "tags") (VStr "abc")
    = Gen [doc_a1; doc_a1] None /\
  where_from (where_ [doc_a1; doc_a2; doc_a1] (VStr "tags") (VStr "abc")) (VStr "a") (VInt 1)
    = Gen [doc_a1; doc_a1] None.
Proof.
  destruct (where_nests [doc_a1; doc_a2; doc_a1] (VStr "a") (VInt 1) (VStr "tags") (VStr "abc"))
    as (_ & _ & Hboth).
  destruct (Hboth eq_refl eq_refl) as [Hrun Hcomm].
  split.
  - rewrite Hrun. reflexivity.
  - rewrite Hcomm, Hrun. reflexivity.
Defined.

(** ** Keys that are strings, keys that are numbers *)

Lemma string_compare_OT (a b : string) :
  String.compare a b = OrdersEx.String_as_OT.compare a b.
Proof.
  revert b. induction a as [| c a IH]; intros [| c' b]; simpl; reflexivity.
Qed.

Lemma string_ltb_lt (a b : string) :
  String.ltb a b = true <-> OrdersEx.String_as_OT.lt a b.
Proof.
  unfold String.ltb, OrdersEx.String_as_OT.lt. rewrite string_compare_OT.
  destruct (OrdersEx.String_as_OT.compare a b); split; congruence.
Qed.

Lemma string_ltb_asym (a b : string) : String.ltb a b = true -> String.ltb b a = false.
Proof.
  unfold String.ltb. rewrite (String.compare_antisym b a).
  destruct (String.compare a b); simpl; congruence.
Qed.

Lemma string_ltb_eqv (a b : string) :
  String.ltb a b = false -> String.ltb b a = false -> a = b.
Proof.
  unfold String.ltb. rewrite (String.compare_antisym b a).
  destruct (String.compare a b) eqn:E; simpl; try congruence.
  intros _ _. apply String.compare_eq_iff, E.
Qed.

Lemma string_ltb_irrefl (a : string) : String.ltb a a = false.
Proof.
  destruct (String.ltb a a) eqn:E; [| reflexivity].
  pose proof (string_ltb_asym a a E). congruence.
Qed.

Lemma string_ltb_trans (a b c : string) :
  String.ltb a b = true -> String.ltb b c = true -> String.ltb a c = true.
Proof.
  rewrite !string_ltb_lt. intros H1 H2.
  exact (StrictOrder_Transitive (R := OrdersEx.String_as_OT.lt) a b c H1 H2).
Qed.

Lemma string_ltb_le_trans (a b c : string) :
  String.ltb b a = false -> String.ltb c b = false -> String.ltb c a = false.
Proof.
  intros Hba Hcb. destruct (String.ltb c a) eqn:Hca; [| reflexivity].
  destruct (String.ltb a b) eqn:Hab.
  - rewrite (string_ltb_trans c a b Hca Hab) in Hcb. discriminate.
  - rewrite (string_ltb_eqv a b Hab Hba) in Hca. congruence.
Qed.

Lemma orderable_string : orderable is_string.
Proof.
  split.
  - intros a b [x ->] [y ->]. simpl. eauto.
  - intros a b [x ->] [y ->]. simpl. intros [= H]. f_equal. apply string_ltb_asym, H.
  - intros a b c [x ->] [y ->] [z ->]. unfold key_le. simpl.
    intros [= H1] [= H2]. f_equal. eapply string_ltb_le_trans; eassumption.
  - intros a b k [x ->] [y ->] [z ->]. unfold key_eqv. simpl.
    destruct (String.ltb x z) eqn:E1, (String.ltb z x) eqn:E2; try discriminate.
    destruct (String.ltb y z) eqn:E3, (String.ltb z y) eqn:E4; try discriminate.
    intros _ _. rewrite (string_ltb_eqv _ _ E1 E2), (string_ltb_eqv _ _ E3 E4).
    rewrite string_ltb_irrefl. reflexivity.
Qed.

Lemma py_lt_number (a b : value) (x y : Z) :
  as_int a = Some x -> as_int b = Some y -> py_lt a b = Ok (x <? y).
Proof.
  intros Ha Hb. destruct a; try discriminate; simpl in *; rewrite Hb; congruence.
Qed.

Lemma orderable_number : orderable is_number.
Proof.
  split.
  - intros a b [x Hx] [y Hy]. rewrite (py_lt_number a b x y Hx Hy). eauto.
  - intros a b [x Hx] [y Hy].
    rewrite (py_lt_number a b x y Hx Hy), (py_lt_number b a y x Hy Hx).
    intros [= H]. f_equal. apply Z.ltb_lt in H. apply Z.ltb_ge. lia.
  - intros a b c [x Hx] [y Hy] [z Hz]. unfold key_le.
    rewrite (py_lt_number b a y x Hy Hx), (py_lt_number c b z y Hz Hy),
      (py_lt_number c a z x Hz Hx).
    intros [= H1] [= H2]. f_equal. rewrite Z.ltb_ge in *. lia.
  - intros a b k [x Hx] [y Hy] [z Hz]. unfold key_eqv.
    rewrite (py_lt_number a k x z Hx Hz), (py_lt_number k a z x Hz Hx),
      (py_lt_number b k y z Hy Hz), (py_lt_number k b z y Hz Hy),
      (py_lt_number a b x y Hx Hy).
    destruct (x <? z) eqn:E1, (z <? x) eqn:E2; try discriminate.
    destruct (y <? z) eqn:E3, (z <? y) eqn:E4; try discriminate.
    intros _ _. f_equal. rewrite Z.ltb_ge in *. lia.
Qed.

Lemma StronglySorted_weaken {A : Type} (R S : A -> A -> Prop) (xs : list A) :
  (forall a b, In a xs -> In b xs -> R a b -> S a b) ->
  StronglySorted R xs -> StronglySorted S xs.
Proof.
  intros HRS Hs. induction Hs as [| x xs Hs IH Hx]; [constructor |].
  constructor.
  - apply IH. intros a b Ha Hb. apply HRS; right; assumption.
  - rewrite List.Forall_forall in *. intros y Hy.
    apply HRS; [left; reflexivity | right; exact Hy | apply Hx, Hy].
Qed.

(** ** [sort_items_by_key], [sort_by] *)

(** X14. [sort_items_by_key] never raises: the keys of a dictionary are
    strings, which [<] orders.  It returns the items of the dictionary,
    each once, sorted by key, ascending or, with [reverse], descending. *)
Theorem sort_items_by_key_sorts (dict : list (string * value)) (reverse : bool) :
  exists out,
    sort_items_by_key dict reverse = Ok out /\
    Permutation dict out /\
    StronglySorted
      (fun p q => if reverse then String.ltb p.1 q.1 = false
                  else String.ltb q.1 p.1 = false) out.
Proof.
  destruct (sorted_spec is_string orderable_string
              (fun pair : string * value => Ok (VStr (_first pair)))
              (fun pair => VStr pair.1) dict reverse)
    as (out & Hrun & Hperm & Hsorted & _).
  { intros x _. split; [reflexivity | eexists; reflexivity]. }
  exists out. split; [exact Hrun |]. split; [exact Hperm |].
  eapply StronglySorted_weaken; [| exact Hsorted].
  intros p q _ _. unfold in_order, key_le. simpl.
  destruct reverse; congruence.
Qed.

(** X15. [sort_by] on documents whose value at the key, or else the
    default, is a number: the result is the documents sorted by that
    number, ascending or, with [reverse], descending; a document without
    the key is placed as if it held the default; and documents with equal
    numbers keep the order they came in. *)
Theorem sort_by_sorts_numbers (docs : list value) (key default : value) (reverse : bool)
    (Hnum : forall d, In d docs ->
              exists w z, get_deep d key default = Ok w /\ as_int w = Some z) :
  exists out,
    sort_by docs key default reverse = Ok out /\
    Permutation docs out /\
    StronglySorted
      (fun a b => if reverse then number_at key default b <= number_at key default a
                  else number_at key default a <= number_at key default b) out /\
    (forall z, List.filter (fun d => number_at key default d =? z) out =
               List.filter (fun d => number_at key default d =? z) docs).
Proof.
  assert (Hkey : forall d, In d docs ->
            get_deep d key default = Ok (found_at key default d) /\
            as_int (found_at key default d) = Some (number_at key default d)).
  { intros d Hd. destruct (Hnum d Hd) as (w & z & Hw & Hz).
    unfold found_at, number_at. rewrite Hw, Hz. split; reflexivity. }
  destruct (sorted_spec is_number orderable_number
              (fun x => get_deep x key default) (found_at key default) docs reverse)
    as (out & Hrun & Hperm & Hsorted & Hstable).
  { intros d Hd. destruct (Hkey d Hd) as [Hget Hint].
    split; [exact Hget | exists (number_at key default d); exact Hint]. }
  assert (Hout : forall d, In d out -> In d docs).
  { intros d Hd. eapply Permutation_in; [symmetry; exact Hperm | exact Hd]. }
  exists out. split; [exact Hrun |]. split; [exact Hperm |]. split.
  - eapply StronglySorted_weaken; [| exact Hsorted].
    intros a b Ha Hb. unfold in_order, key_le.
    destruct (Hkey a (Hout a Ha)) as [_ Hia]. destruct (Hkey b (Hout b Hb)) as [_ Hib].
    destruct reverse.
    + rewrite (py_lt_number _ _ _ _ Hia Hib). intros [= H]. apply Z.ltb_ge, H.
    + rewrite (py_lt_number _ _ _ _ Hib Hia). intros [= H]. apply Z.ltb_ge, H.
  - intros z.
    assert (Heqv : forall d, In d docs ->
              key_eqv (found_at key default d) (VInt z) = (number_at key default d =? z)).
    { intros d Hd. destruct (Hkey d Hd) as [_ Hi]. unfold key_eqv.
      rewrite (py_lt_number _ (VInt z) _ z Hi eq_refl),
        (py_lt_number (VInt z) _ z _ eq_refl Hi).
      destruct (Z.ltb_spec (number_at key default d) z),
        (Z.ltb_spec z (number_at key default d)),
        (Z.eqb_spec (number_at key default d) z); try reflexivity; lia. }
    rewrite <- (List.filter_ext_in _ _ out (fun d Hd => Heqv d (Hout d Hd))).
    rewrite <- (List.filter_ext_in _ _ docs Heqv).
    apply Hstable. exists z. reflexivity.
Qed.

Lemma sort_by_sorts_numbers_witness :
  exists out,
    sort_by docs_weighted (VStr "weight") (VInt 0) true = Ok out /\
    Permutation docs_weighted out /\
    StronglySorted
      (fun a b => number_at (VStr "weight") (VInt 0) b <= number_at (VStr "weight") (VInt 0) a)
      out.
Proof.
  assert (Hnum : forall d, In d docs_weighted ->
            exists w z, get_deep d (VStr "weight") (VInt 0) = Ok w /\ as_int w = Some z).
  { intros d [<- | [<- | [<- | []]]]; eexists; eexists; split; reflexivity. }
  destruct (sort_by_sorts_numbers docs_weighted (VStr "weight") (VInt 0) true Hnum)
    as (out & Hrun & Hperm & Hsorted & _).
  exists out. auto.
Defined.

(** ** Sorting documents that all lack the key *)

Lemma sort_keyed_all_none {A : Type} (l : list (value * A)) :
  (forall p, In p l -> p.1 = VNone) ->
  sort_keyed l = match l with
                 | [] | [_] => Ok l
                 | _ :: _ :: _ => Raise TypeError
                 end.
Proof.
  induction l as [| p l IH]; intros Hnone; [reflexivity |].
  simpl. rewrite IH by (intros q Hq; apply Hnone; right; exact Hq).
  destruct l as [| q [| r l]]; simpl; [reflexivity | | reflexivity].
  rewrite (Hnone q) by (right; left; reflexivity).
  rewrite (Hnone p) by (left; reflexivity). reflexivity.
Qed.

Lemma sort_keyed_all_equivalent {A : Type} (l : list (value * A)) :
  (forall p q, In p l -> In q l -> py_lt q.1 p.1 = Ok false) ->
  sort_keyed l = Ok l.
Proof.
  induction l as [| p l IH]; intros Heq; [reflexivity |].
  simpl. rewrite IH by (intros a b Ha Hb; apply Heq; right; assumption).
  simpl. destruct l as [| q l]; [reflexivity |]. simpl.
  rewrite (Heq p q) by (simpl; auto). reflexivity.
Qed.

(** X16. [None] is no default to sort by.  On two or more documents
    that all lack the key, [sort_by] with the default [None] raises
    [TypeError], because [None] is not orderable; [sort_by_keys] with the
    same key and the same default succeeds, because one-element tuples
    holding [None] compare equal, and returns the documents in the order
    they came in. *)
Theorem sort_by_none_default_raises (docs : list value) (key : value) (reverse : bool)
    (Htwo : (2 <= List.length docs)%nat)
    (Habsent : forall d, In d docs -> get_deep d key VNone = Ok VNone) :
  sort_by docs key VNone reverse = Raise TypeError /\
  sort_by_keys docs [key] [VNone] reverse = Ok docs.
Proof.
  split.
  - unfold sort_by, sorted.
    rewrite (tuple_map_pure _ (fun _ => VNone) docs Habsent). simpl.
    rewrite zip_map_key.
    set (l := if reverse then rev (map (fun x => (VNone, x)) docs)
              else map (fun x => (VNone, x)) docs).
    assert (Hlen : List.length l = List.length docs).
    { unfold l. destruct reverse; rewrite ?length_rev, length_map; reflexivity. }
    assert (Hnone : forall p, In p l -> p.1 = VNone).
    { intros p Hp. assert (Hp' : In p (map (fun x : value => (VNone, x)) docs)).
      { unfold l in Hp. destruct reverse; [apply List.in_rev, Hp | exact Hp]. }
      apply List.in_map_iff in Hp' as (x & <- & _). reflexivity. }
    rewrite (sort_keyed_all_none l Hnone).
    destruct l as [| p [| q l]]; simpl in Hlen; try lia. reflexivity.
  - rewrite sort_by_keys_equal_lengths by (unfold len; simpl; lia).
    unfold sorted.
    rewrite (tuple_map_pure _ (fun _ => VTuple [VNone]) docs).
    2:{ intros d Hd. unfold composite_key. simpl. rewrite (Habsent d Hd). reflexivity. }
    simpl. rewrite zip_map_key.
    set (keyed := map (fun x => (VTuple [VNone], x)) docs).
    assert (Hmap : map snd keyed = docs).
    { unfold keyed. rewrite List.map_map. simpl. apply List.map_id. }
    assert (Heq : forall l, (forall p, In p l -> In p keyed) -> sort_keyed l = Ok l).
    { intros l Hl. apply sort_keyed_all_equivalent. intros p q Hp Hq.
      apply Hl in Hp, Hq. unfold keyed in Hp, Hq.
      apply List.in_map_iff in Hp as (x & <- & _).
      apply List.in_map_iff in Hq as (y & <- & _). reflexivity. }
    destruct reverse.
    + rewrite Heq by (intros p Hp; apply List.in_rev, Hp). simpl.
      rewrite rev_involutive, Hmap. reflexivity.
    + rewrite Heq by auto. simpl. rewrite Hmap. reflexivity.
Qed.

Lemma sort_by_none_default_raises_witness :
  sort_by [doc_untitled; doc_a1; doc_a2] (VStr "weight") VNone false = Raise TypeError /\
  sort_by_keys [doc_untitled; doc_a1; doc_a2] [VStr "weight"] [VNone] false
    = Ok [doc_untitled; doc_a1; doc_a2].
Proof.
  apply (sort_by_none_default_raises [doc_untitled; doc_a1; doc_a2] (VStr "weight") false).
  - simpl. lia.
  - intros d [<- | [<- | [<- | []]]]; reflexivity.
Defined.

Lemma where_not_complements_where_witness :
  yielded (where_ [doc_a1; doc_a2] (VStr "a") (VInt 1)) = [doc_a1] /\
  yielded (where_not [doc_a1; doc_a2] (VStr "a") (VInt 1)) = [doc_a2].
Proof.
  destruct (where_not_complements_where [doc_a1; doc_a2] (VStr "a") (VInt 1))
    as (_ & _ & Hsplit).
  destruct (Hsplit eq_refl) as [H1 H2].
  split; [rewrite H1 | rewrite H2]; reflexivity.
Defined.

(** ** More on [chunk] *)

Section ChunkMore.
Context {A : Type}.
Implicit Types (acc xs ys : list A) (n : Z).

(** Nothing is cut while the pending batch cannot reach [n] elements. *)
Lemma chunk_loop_never_full n acc xs :
  n <= 0 \/ len acc + len xs < n ->
  chunk_loop n acc xs = if 0 <? len (acc ++ xs) then [acc ++ xs] else [].
Proof using Type.
  revert acc. induction xs as [| x xs IH]; intros acc Hn; simpl.
  - rewrite app_nil_r. reflexivity.
  - assert (Hlen : len (acc ++ [x]) = len acc + 1) by apply len_app.
    assert (Hxs : len (x :: xs) = 1 + len xs) by (unfold len in *; simpl in *; lia).
    pose proof (len_nonneg acc). pose proof (len_nonneg xs).
    destruct (Z.eqb_spec (len (acc ++ [x])) n) as [E | E]; [lia |].
    rewrite IH by lia. rewrite <- app_assoc. reflexivity.
Qed.

Lemma chunk_loop_partial n acc ys (rest : list A) :
  len acc + len ys < n ->
  chunk_loop n acc (ys ++ rest) = chunk_loop n (acc ++ ys) rest.
Proof using Type.
  revert acc. induction ys as [| y ys IH]; intros acc Hn; simpl.
  - rewrite app_nil_r. reflexivity.
  - assert (Hlen : len (acc ++ [y]) = len acc + 1) by apply len_app.
    assert (Hys : len (y :: ys) = 1 + len ys) by (unfold len in *; simpl in *; lia).
    pose proof (len_nonneg acc). pose proof (len_nonneg ys).
    destruct (Z.eqb_spec (len (acc ++ [y])) n) as [E | E]; [lia |].
    rewrite IH by lia. rewrite <- app_assoc. reflexivity.
Qed.

(** A run of exactly [n] elements is cut off as one batch. *)
Lemma chunk_loop_full_batch n (b rest : list A) :
  0 < n -> len b = n ->
  chunk_loop n [] (b ++ rest) = b :: chunk_loop n [] rest.
Proof using Type.
  intros Hn Hb.
  destruct (exists_last (l := b)) as (b' & x & ->).
  { intros ->. unfold len in Hb. simpl in Hb. lia. }
  rewrite len_app in Hb. change (len [x]) with 1 in Hb.
  rewrite <- app_assoc. simpl.
  rewrite chunk_loop_partial by (unfold len in *; simpl in *; lia).
  simpl. rewrite len_app. change (len [x]) with 1.
  rewrite (proj2 (Z.eqb_eq _ _) Hb). reflexivity.
Qed.

Lemma chunk_loop_count n acc xs :
  0 < n -> len acc < n ->
  len (chunk_loop n acc xs) = (len acc + len xs + n - 1) / n.
Proof using Type.
  intros Hn. revert acc. induction xs as [| x xs IH]; intros acc Hacc; simpl.
  - change (len (@nil A)) with 0. pose proof (len_nonneg acc).
    destruct (Z.ltb_spec 0 (len acc)).
    + change (len [acc]) with 1.
      apply (Z.div_unique_pos _ _ 1 (len acc - 1)); lia.
    + change (len (@nil (list A))) with 0. symmetry.
      apply Z.div_small. lia.
  - assert (Hlen : len (acc ++ [x]) = len acc + 1) by apply len_app.
    assert (Hxs : len (x :: xs) = 1 + len xs) by (unfold len in *; simpl in *; lia).
    pose proof (len_nonneg acc). pose proof (len_nonneg xs).
    destruct (Z.eqb_spec (len (acc ++ [x])) n) as [E | E].
    + assert (Hcons : forall (c : list A) l, len (c :: l) = 1 + len l)
        by (intros; unfold len; simpl; lia).
      rewrite Hcons, IH by exact Hn.
      change (len (@nil A)) with 0.
      replace (len acc + len (x :: xs) + n - 1) with ((len xs + n - 1) + 1 * n) by lia.
      rewrite Z.div_add by lia. rewrite Z.add_0_l. lia.
    + rewrite IH by lia. f_equal. lia.
Qed.
End ChunkMore.

(** X17. When the batch size is not positive, or is at least the length
    of a non-empty input, [chunk] yields the whole input as one batch. *)
Theorem chunk_single_batch {A : Type} (xs : list A) (n : Z)
    (Hxs : xs <> [])
    (Hn : n <= 0 \/ len xs <= n) :
  chunk xs n = [xs].
Proof.
  assert (Hpos : 0 < len xs).
  { destruct xs; [congruence |]. unfold len. simpl. lia. }
  unfold chunk. destruct Hn as [Hn | Hn].
  - rewrite chunk_loop_never_full by (left; exact Hn).
    simpl. rewrite (proj2 (Z.ltb_lt _ _) Hpos). reflexivity.
  - destruct (exists_last Hxs) as (b & x & ->).
    rewrite len_app in Hn. change (len [x]) with 1 in Hn.
    rewrite (chunk_loop_partial n [] b [x]) by (unfold len in *; simpl in *; lia).
    simpl. destruct (len (b ++ [x]) =? n); [reflexivity |].
    rewrite (proj2 (Z.ltb_lt _ _) Hpos). reflexivity.
Qed.

Lemma chunk_single_batch_witness :
  chunk [1; 2; 3] 0 = [[1; 2; 3]] /\ chunk [1; 2; 3] 5 = [[1; 2; 3]].
Proof.
  split.
  - apply chunk_single_batch; [discriminate | left; lia].
  - apply chunk_single_batch; [discriminate | right; unfold len; simpl; lia].
Defined.

(** X18. For a positive batch size [n], [chunk] yields as many batches as
    the length of the input divided by [n], rounded up. *)
Theorem chunk_count {A : Type} (xs : list A) (n : Z) (Hn : 0 < n) :
  len (chunk xs n) = (len xs + n - 1) / n.
Proof.
  unfold chunk. rewrite chunk_loop_count by exact Hn.
  change (len (@nil A)) with 0. f_equal.
Qed.

Lemma chunk_count_witness : len (chunk [0; 1; 2; 3; 4; 5; 6] 3) = (7 + 3 - 1) / 3.
Proof.
  apply (chunk_count [0; 1; 2; 3; 4; 5; 6] 3). lia.
Defined.

(** X19. [chunk] undoes concatenation: batches that are all of size [n],
    except a last one that is not empty and not longer than [n], are the
    batches [chunk] cuts from their concatenation. *)
Theorem chunk_concat_roundtrip {A : Type} (init : list (list A)) (last : list A) (n : Z)
    (Hn : 0 < n)
    (Hinit : Forall (fun b => len b = n) init)
    (Hlast : last <> [] /\ len last <= n) :
  chunk (List.concat (init ++ [last])) n = init ++ [last].
Proof.
  unfold chunk. induction Hinit as [| b init Hb _ IH]; simpl.
  - rewrite app_nil_r. apply chunk_single_batch; [apply Hlast | right; apply Hlast].
  - rewrite chunk_loop_full_batch by assumption. rewrite IH. reflexivity.
Qed.

Lemma chunk_concat_roundtrip_witness :
  chunk (List.concat ([[1; 2]; [3; 4]] ++ [[5]])) 2 = [[1; 2]; [3; 4]] ++ [[5]].
Proof.
  apply chunk_concat_roundtrip.
  - lia.
  - repeat constructor.
  - split; [discriminate | unfold len; simpl; lia].
Defined.

(** ** More on [compose] *)

(** X20. Composition threads through argument lists:
    [compose(compose(f, *gs), *hs)] is [compose(f, *gs, *hs)]; with no
    further functions [compose(f)] is [f]; and [id] is neutral on either
    side. *)
Theorem compose_assoc_id {A : Type} (f : A -> A) (gs hs : list (A -> A)) (x : A) :
  compose (compose f gs) hs x = compose f (gs ++ hs) x /\
  compose f [] x = f x /\
  compose id (f :: gs) x = compose f gs x /\
  compose f (gs ++ [id]) x = compose f gs x.
Proof.
  split; [| split; [| split]].
  - unfold compose. rewrite fold_left_app. reflexivity.
  - reflexivity.
  - rewrite !compose_fold_right. reflexivity.
  - rewrite compose_snoc. reflexivity.
Qed.

(** ** [lift_iter] *)

Lemma gen_map_pure {A B : Type} (f : A -> result B) (g : A -> B) (xs : list A) :
  (forall x, In x xs -> f x = Ok (g x)) -> gen_map f xs = Gen (map g xs) None.
Proof.
  induction xs as [| x xs IH]; intros Hf; simpl; [reflexivity |].
  rewrite (Hf x (or_introl eq_refl)).
  rewrite IH by (intros y Hy; apply Hf; right; exact Hy). reflexivity.
Qed.

Lemma gen_map_app_raise {A B : Type} (f : A -> result B) (g : A -> B)
    (pre post : list A) (d : A) (e : exn) :
  (forall x, In x pre -> f x = Ok (g x)) ->
  f d = Raise e ->
  gen_map f (pre ++ d :: post) = Gen (map g pre) (Some e).
Proof.
  intros Hpre Hd. induction pre as [| x pre IH]; simpl.
  - rewrite Hd. reflexivity.
  - rewrite (Hpre x (or_introl eq_refl)).
    rewrite IH by (intros y Hy; apply Hpre; right; exact Hy). reflexivity.
Qed.

Lemma gen_map_from_fused {A B C : Type} (f : B -> result C) (g : A -> result B) (xs : list A) :
  gen_map_from f (gen_map g xs) = gen_map (fun x => y ← g x; f y) xs.
Proof.
  unfold gen_map_from.
  induction xs as [| x xs IH]; simpl; [reflexivity |].
  destruct (g x) as [y | e]; simpl; [| reflexivity].
  destruct (f y) as [z | e]; simpl; [| reflexivity].
  rewrite <- IH. reflexivity.
Qed.

(** X21. [lift_iter(f)] yields [f(x, *args)] for the items [x] of its
    input, in order, one result per item.  It ends with the exception of
    the first call that raises, after the results for the items before
    it have been yielded.  Lifting commutes with chaining: [lift_iter(f)]
    reading from [lift_iter(g)] behaves on every input as the lift of the
    function that applies [g] and then [f]. *)
Theorem lift_iter_maps {A B C Args : Type}
    (f : A -> Args -> result B) (fp : A -> B) (args : Args) (pre : list A)
    (Hpre : forall x, In x pre -> f x args = Ok (fp x)) :
  lift_iter f pre args = Gen (map fp pre) None /\
  (forall d post e,
      f d args = Raise e ->
      lift_iter f (pre ++ d :: post) args = Gen (map fp pre) (Some e)) /\
  (forall (h : B -> Args -> result C) (xs : list A) (args' : Args),
      lift_iter_from h (lift_iter f xs args) args' =
      lift_iter (fun x a => y ← f x a.1; h y a.2) xs (args, args')).
Proof.
  split; [| split].
  - apply gen_map_pure, Hpre.
  - intros d post e Hd. apply gen_map_app_raise; assumption.
  - intros h xs args'. unfold lift_iter_from, lift_iter.
    apply gen_map_from_fused.
Qed.

Lemma lift_iter_maps_witness :
  lift_iter (fun d key => get_deep d key VNone) [doc_a1; doc_a2] (VStr "a")
    = Gen [VInt 1; VInt 2] None /\
  lift_iter (fun d key => get_deep d key VNone) ([doc_a1; doc_a2] ++ VInt 0 :: [doc_a1])
      (VStr "a")
    = Gen [VInt 1; VInt 2] (Some TypeError).
Proof.
  assert (Hpre : forall x, In x [doc_a1; doc_a2] ->
            get_deep x (VStr "a") VNone = Ok (value_at x (VStr "a"))).
  { intros x [<- | [<- | []]]; reflexivity. }
  destruct (lift_iter_maps (C := value) (fun d key => get_deep d key VNone)
              (fun d => value_at d (VStr "a")) (VStr "a") [doc_a1; doc_a2] Hpre)
    as (Hrun & Hfail & _).
  split.
  - rewrite Hrun. reflexivity.
  - rewrite (Hfail (VInt 0) [doc_a1] TypeError eq_refl). reflexivity.
Defined.

(** ** [tap_each] *)

Arguments effects : simpl never.

Lemma effects_cons {A S : Type} (f : A -> S -> S * option exn) (x : A) (ys : list A) (s : S) :
  effects f (x :: ys) s = effects f ys (f x s).1.
Proof. reflexivity. Qed.

(** X22. [tap_each] yields the items of its input unchanged and in order,
    and is lazy.  As long as [f] does not raise, [n] requests yield the
    first [n] items, after [f] has been called once on each of them, in
    order, and on no other item; the generator is then suspended before
    the rest of the input, or finished if the input had fewer than [n]
    items.  When [f] raises on an item within the first [n], the items
    before it have been yielded, [f] has been called on them and on the
    failing item, and the generator has ended with the exception,
    without yielding that item or reading further. *)
Theorem tap_each_runs_on_demand {A S : Type} (f : A -> S -> S * option exn) :
  (forall (n : nat) (iter : list A) (s : S),
      quiet f (take n iter) s ->
      tap_each f n iter s =
        (take n iter, effects f (take n iter) s,
         if (n <=? List.length iter)%nat then Suspended (drop n iter) else Finished)) /\
  (forall (n : nat) (pre : list A) (x : A) (rest : list A) (s s' : S) (e : exn),
      quiet f pre s ->
      f x (effects f pre s) = (s', Some e) ->
      (List.length pre < n)%nat ->
      tap_each f n (pre ++ x :: rest) s = (pre, s', Failed e)).
Proof.
  split.
  - induction n as [| n IH]; intros iter s Hq.
    + reflexivity.
    + destruct iter as [| x rest]; [reflexivity |].
      cbn [take firstn] in Hq. destruct Hq as [Hx Hq].
      cbn [tap_each]. destruct (f x s) as [s1 raised] eqn:E.
      simpl in Hx. subst raised. simpl in Hq.
      rewrite (IH rest s1 Hq).
      cbn [take firstn drop skipn List.length]. rewrite effects_cons, E. reflexivity.
  - induction n as [| n IH]; intros pre x rest s s' e Hq Hx Hlen; [lia |].
    destruct pre as [| y pre].
    + cbn [app tap_each]. change (effects f [] s) with s in Hx.
      rewrite Hx. reflexivity.
    + cbn [app tap_each]. destruct Hq as [Hy Hq].
      rewrite effects_cons in Hx.
      destruct (f y s) as [s1 raised] eqn:E. simpl in Hy. subst raised.
      simpl in Hq, Hx, Hlen.
      rewrite (IH pre x rest s1 s' e Hq Hx) by lia. reflexivity.
Qed.

Lemma tap_each_runs_on_demand_witness :
  tap_each log_item 2 [3; 1; 2] [] = ([3; 1], [3; 1], Suspended [2]) /\
  tap_each log_item 5 [3; 1; 2] [] = ([3; 1; 2], [3; 1; 2], Finished) /\
  tap_each log_item 5 ([3] ++ -1 :: [2]) [] = ([3], [3], Failed ValueError).
Proof.
  destruct (tap_each_runs_on_demand log_item) as [Hquiet Hraise].
  split; [| split].
  - rewrite (Hquiet 2%nat [3; 1; 2] []); [reflexivity |]. simpl. auto.
  - rewrite (Hquiet 5%nat [3; 1; 2] []); [reflexivity |]. simpl. auto.
  - apply Hraise; [simpl; auto | reflexivity | simpl; lia].
Defined.

(** ** Parsing a key path from a string *)

Lemma split_on_nonempty (sep : ascii) (s : string) : split_on sep s <> [].
Proof.
  destruct s as [| c s]; simpl; [discriminate |].
  destruct (Ascii.eqb c sep); [discriminate |].
  destruct (split_on sep s); discriminate.
Qed.

Lemma split_on_sep_free (sep : ascii) (s : string) :
  Forall (fun w => sep_free sep w = true) (split_on sep s).
Proof.
  induction s as [| c s IH]; simpl; [repeat constructor |].
  destruct (Ascii.eqb c sep) eqn:E; [constructor; [reflexivity | exact IH] |].
  destruct (split_on sep s) as [| w ws]; [repeat constructor; simpl; rewrite E; reflexivity |].
  inversion IH as [| ? ? Hw Hws]; subst. constructor; [| exact Hws].
  simpl. rewrite E, Hw. reflexivity.
Qed.

Lemma concat_split_on (sep : ascii) (s : string) :
  String.concat (String sep EmptyString) (split_on sep s) = s.
Proof.
  induction s as [| c s IH]; simpl; [reflexivity |].
  destruct (Ascii.eqb c sep) eqn:E.
  - apply Ascii.eqb_eq in E. subst c.
    pose proof (split_on_nonempty sep s) as Hne.
    destruct (split_on sep s) as [| w ws]; [congruence |].
    simpl in *. rewrite IH. reflexivity.
  - destruct (split_on sep s) as [| w ws] eqn:Es.
    + exfalso. exact (split_on_nonempty sep s Es).
    + destruct ws as [| w' ws']; simpl in *; rewrite <- IH; reflexivity.
Qed.

(** X23. A key given as a string is parsed into at least one segment;
    no segment contains a dot; and the segments joined with dots are the
    string.  In particular the empty string is the path of one key, the
    empty key, not the empty path. *)
Theorem key_path_of_string (s : string) :
  exists segs,
    key_path (VStr s) = Ok (map VStr segs) /\
    segs <> [] /\
    Forall (fun w => sep_free "." w = true) segs /\
    String.concat "." segs = s /\
    (s = "" -> segs = [""]).
Proof.
  exists (split_on "." s). split; [reflexivity |].
  split; [apply split_on_nonempty |].
  split; [apply split_on_sep_free |].
  split; [apply concat_split_on |].
  intros ->. reflexivity.
Qed.

(** ** One key: [get_deep] and [get] *)

(** X24. For a key without dots, [get_deep(d, k, v)] and [get(d, k, v)]
    agree on a dictionary except when the field holds [None]: [get]
    returns the [None] that is stored, [get_deep] returns [v]. *)
Theorem get_deep_single_key_vs_get (kvs : list (string * value)) (k : string) (v : value)
    (Hk : sep_free "." k = true) :
  get_deep (VDict kvs) (VStr k) v =
    Ok (match dict_lookup k kvs with
        | Some w => if py_eq w VNone then v else w
        | None => v
        end) /\
  get (VDict kvs) (VStr k) v =
    Ok (match dict_lookup k kvs with
        | Some w => w
        | None => v
        end) /\
  (dict_lookup k kvs <> Some VNone ->
   get_deep (VDict kvs) (VStr k) v = get (VDict kvs) (VStr k) v).
Proof.
  assert (Hdeep : get_deep (VDict kvs) (VStr k) v =
                  Ok (match dict_lookup k kvs with
                      | Some w => if py_eq w VNone then v else w
                      | None => v
                      end)).
  { unfold get_deep. simpl key_path. rewrite (split_on_free "." k Hk). simpl.
    unfold get_dict. simpl. destruct (dict_lookup k kvs) as [w |]; simpl; [| reflexivity].
    destruct (py_eq w VNone); reflexivity. }
  split; [exact Hdeep |]. split; [apply get_on_dict |].
  intros Hnn. rewrite Hdeep, get_on_dict.
  destruct (dict_lookup k kvs) as [w |]; [| reflexivity].
  destruct (py_eq w VNone) eqn:E; [| reflexivity].
  apply py_eq_none in E. subst w. congruence.
Qed.

Lemma get_deep_single_key_vs_get_witness :
  get_deep (VDict [("title", VNone)]) (VStr "title") (VStr "untitled") = Ok (VStr "untitled") /\
  get (VDict [("title", VNone)]) (VStr "title") (VStr "untitled") = Ok VNone /\
  get_deep doc_untitled (VStr "title") (VStr "untitled") =
    get doc_untitled (VStr "title") (VStr "untitled").
Proof.
  destruct (get_deep_single_key_vs_get [("title", VNone)] "title" (VStr "untitled") eq_refl)
    as (H1 & H2 & _).
  destruct (get_deep_single_key_vs_get [("title", VStr "About")] "title" (VStr "untitled") eq_refl)
    as (_ & _ & H3).
  split; [exact H1 |]. split; [exact H2 |].
  apply H3. discriminate.
Defined.

(** ** Grouping by [id_path] *)

Lemma tuple_filter_pure_in {A : Type} (p : A -> result bool) (q : A -> bool) (xs : list A) :
  (forall x, In x xs -> p x = Ok (q x)) -> tuple_filter p xs = Ok (List.filter q xs).
Proof.
  induction xs as [| x xs IH]; intros Hp; simpl; [reflexivity |].
  rewrite (Hp x (or_introl eq_refl)). simpl.
  rewrite IH by (intros y Hy; apply Hp; right; exact Hy). reflexivity.
Qed.

Lemma tuple_filter_raises {A : Type} (p : A -> result bool) (xs : list A) (e : exn) :
  (forall x, In x xs -> (exists b, p x = Ok b) \/ p x = Raise e) ->
  (exists d, In d xs /\ p d = Raise e) ->
  tuple_filter p xs = Raise e.
Proof.
  induction xs as [| x xs IH]; intros Hall (d & Hd & Hraise); [destruct Hd |].
  simpl. destruct (Hall x (or_introl eq_refl)) as [[b Hb] | Hx].
  - rewrite Hb. simpl.
    destruct Hd as [<- | Hd]; [congruence |].
    rewrite IH; [reflexivity | intros y Hy; apply Hall; right; exact Hy | eauto].
  - rewrite Hx. reflexivity.
Qed.

Lemma filter_all_true {A : Type} (xs : list A) : List.filter (fun _ => true) xs = xs.
Proof. induction xs as [| x xs IH]; simpl; [reflexivity | rewrite IH; reflexivity]. Qed.

Section GroupingById.
Context {R : Type}.
Variable fnmatchcase : string -> string -> bool.
Variable f : list value -> list (string * value) -> R.

Lemma id_path_matches_cases (d : value) (pattern : string) :
  id_path_matches fnmatchcase d (VStr pattern) =
    if String.eqb pattern "*" then Ok true
    else
      match id_path_of d with
      | Some s => Ok (fnmatchcase s pattern)
      | None => Raise TypeError
      end.
Proof using Type.
  unfold id_path_matches, id_path_of. simpl py_eq.
  destruct (String.eqb pattern "*"); [reflexivity |]. simpl negb. cbv iota.
  pose proof (nve_get d (VStr "id_path") VNone) as Hnve.
  destruct (get d (VStr "id_path") VNone) as [w | e]; simpl.
  - destruct w; reflexivity.
  - destruct e; [reflexivity | exfalso; apply Hnve; reflexivity].
Qed.

Lemma group_step_id_path (ds : list value) (def cfg : list (string * value)) (pattern : string) :
  (forall d, In d ds -> exists s, id_path_of d = Some s) ->
  dict_lookup "d" cfg = None ->
  group_step (id_path_matches fnmatchcase) (fun m kw => Ok (f m kw))
    ds (VDict def) pattern (VDict cfg) =
  Ok (f (List.filter (in_group fnmatchcase pattern) ds) (dict_update def cfg)).
Proof using Type.
  intros Hids Hname. unfold group_step.
  rewrite (tuple_filter_pure_in _ (in_group fnmatchcase pattern)).
  - change (Ok (List.filter (in_group fnmatchcase pattern) ds) ≫= _)
      with (merged ← replace (VDict def) cfg;
            conf ← as_kwargs merged;
            Ok (f (List.filter (in_group fnmatchcase pattern) ds) conf)).
    rewrite (replace_ok def cfg Hname). reflexivity.
  - intros d Hd. rewrite id_path_matches_cases. unfold in_group.
    destruct (Hids d Hd) as [s ->]. destruct (String.eqb pattern "*"); reflexivity.
Qed.

Lemma group_step_star (ds : list value) (def cfg : list (string * value)) :
  dict_lookup "d" cfg = None ->
  group_step (id_path_matches fnmatchcase) (fun m kw => Ok (f m kw))
    ds (VDict def) "*" (VDict cfg) =
  Ok (f ds (dict_update def cfg)).
Proof using Type.
  intros Hname. unfold group_step.
  rewrite (tuple_filter_pure_in _ (fun _ => true)) by (intros d _; reflexivity).
  rewrite filter_all_true.
  change (Ok ds ≫= _)
    with (merged ← replace (VDict def) cfg;
          conf ← as_kwargs merged;
          Ok (f ds conf)).
  rewrite (replace_ok def cfg Hname). reflexivity.
Qed.

Lemma group_step_missing_id_path (ds : list value) (def : value) (pattern : string) (cfg : value) :
  pattern <> "*" ->
  (exists d, In d ds /\ id_path_of d = None) ->
  group_step (id_path_matches fnmatchcase) (fun m kw => Ok (f m kw))
    ds def pattern cfg = Raise TypeError.
Proof using Type.
  intros Hpat (d & Hd & Hnone). unfold group_step.
  apply String.eqb_neq in Hpat.
  rewrite (tuple_filter_raises _ ds TypeError); [reflexivity | |].
  - intros x _. rewrite id_path_matches_cases, Hpat.
    destruct (id_path_of x); [left; eauto | right; reflexivity].
  - exists d. split; [exact Hd |].
    rewrite id_path_matches_cases, Hpat, Hnone. reflexivity.
Qed.
End GroupingById.

(** X25. When every document has a string [id_path] and no group
    configuration has a key named [d], the function decorated with
    [decorate_group_matching_id_path] runs to the end and yields one
    result per group, in the order of the group mapping: the reducer
    applied to the documents whose [id_path] matches the group's pattern
    (all of them for ["*"]), in their original order, with the defaults
    overwritten by the group's configuration. *)
Theorem group_by_id_path {R : Type}
    (fnmatchcase : string -> string -> bool)
    (f : list value -> list (string * value) -> R)
    (ds : list value) (gs : list (string * list (string * value)))
    (def : list (string * value))
    (Hids : forall d, In d ds -> exists s, id_path_of d = Some s)
    (Hnames : Forall (fun g => dict_lookup "d" g.2 = None) gs) :
  decorate_group_matching_id_path fnmatchcase (fun m kw => Ok (f m kw))
      ds (group_items gs) (VDict def) =
    Gen (map (fun g => f (List.filter (in_group fnmatchcase g.1) ds)
                         (dict_update def g.2)) gs) None.
Proof.
  unfold decorate_group_matching_id_path, decorate_group_matching.
  induction Hnames as [| [pattern cfg] gs Hname _ IH]; [reflexivity |].
  cbn [group_items map group_loop fst snd].
  rewrite (group_step_id_path fnmatchcase f ds def cfg pattern Hids Hname).
  fold (group_items gs). rewrite IH. reflexivity.
Qed.

Lemma group_by_id_path_witness :
  decorate_group_matching_id_path glob_match (fun m kw => Ok (collect m kw))
      [doc_post; doc_index] (group_items groups_ex) (VDict [("lang", VStr "en")]) =
    Gen [([doc_post], [("lang", VStr "en"); ("tag", VStr "post")]);
         ([doc_post; doc_index], [("lang", VStr "en"); ("tag", VStr "page")])]
      None.
Proof.
  rewrite (group_by_id_path glob_match collect [doc_post; doc_index] groups_ex
             [("lang", VStr "en")]).
  - reflexivity.
  - intros d [<- | [<- | []]]; eexists; reflexivity.
  - repeat constructor.
Defined.

Lemma group_loop_stars_then_raise {R : Type}
    (fnmatchcase : string -> string -> bool)
    (f : list value -> list (string * value) -> R)
    (ds : list value) (stars : list (list (string * value)))
    (pattern : string) (cfg : value) (later : list (string * value))
    (def : list (string * value)) :
  pattern <> "*" ->
  (exists d, In d ds /\ id_path_of d = None) ->
  Forall (fun c => dict_lookup "d" c = None) stars ->
  group_loop (id_path_matches fnmatchcase) (fun m kw => Ok (f m kw)) ds (VDict def)
      (map (fun c => ("*", VDict c)) stars ++ (pattern, cfg) :: later) =
    Gen (map (fun c => f ds (dict_update def c)) stars) (Some TypeError).
Proof.
  intros Hpat Hbad Hstars. induction Hstars as [| c stars Hc _ IH]; simpl.
  - rewrite (group_step_missing_id_path fnmatchcase f ds (VDict def) pattern cfg Hpat Hbad).
    reflexivity.
  - rewrite (group_step_star fnmatchcase f ds def c Hc). rewrite IH. reflexivity.
Qed.

(** X26. When some document has no string [id_path], the first group
    whose pattern is not ["*"] ends the generator with [TypeError], and
    no later group is processed.  A group ["*"] that comes before it,
    with a configuration that has no key named [d], still gets its
    result, computed on all the documents. *)
Theorem group_by_id_path_fails_lazily {R : Type}
    (fnmatchcase : string -> string -> bool)
    (f : list value -> list (string * value) -> R)
    (ds : list value)
    (pattern : string) (cfg : value) (later : list (string * value))
    (def star : list (string * value))
    (Hpat : pattern <> "*")
    (Hbad : exists d, In d ds /\ id_path_of d = None)
    (Hstar : dict_lookup "d" star = None) :
  decorate_group_matching_id_path fnmatchcase (fun m kw => Ok (f m kw))
      ds ((pattern, cfg) :: later) (VDict def) =
    Gen [] (Some TypeError) /\
  decorate_group_matching_id_path fnmatchcase (fun m kw => Ok (f m kw))
      ds (("*", VDict star) :: (pattern, cfg) :: later) (VDict def) =
    Gen [f ds (dict_update def star)] (Some TypeError).
Proof.
  unfold decorate_group_matching_id_path, decorate_group_matching. split.
  - apply (group_loop_stars_then_raise fnmatchcase f ds [] pattern cfg later def
             Hpat Hbad). constructor.
  - apply (group_loop_stars_then_raise fnmatchcase f ds [star] pattern cfg later def
             Hpat Hbad). repeat constructor. exact Hstar.
Qed.

Lemma group_by_id_path_fails_lazily_witness :
  decorate_group_matching_id_path glob_match (fun m kw => Ok (collect m kw))
      [doc_post; doc_untitled]
      (("*", VDict [("tag", VStr "page")])
         :: ("posts/*", VDict [("tag", VStr "post")]) :: [("drafts/*", VDict [])])
      (VDict []) =
    Gen [([doc_post; doc_untitled], [("tag", VStr "page")])] (Some TypeError).
Proof.
  assert (Hpat : "posts/*" <> "*") by discriminate.
  assert (Hbad : exists d, In d [doc_post; doc_untitled] /\ id_path_of d = None).
  { exists doc_untitled. split; [right; left; reflexivity | reflexivity]. }
  destruct (group_by_id_path_fails_lazily glob_match collect [doc_post; doc_untitled]
              "posts/*" (VDict [("tag", VStr "post")]) [("drafts/*", VDict [])]
              [] [("tag", VStr "page")] Hpat Hbad eq_refl) as [_ Hstar].
  rewrite Hstar. reflexivity.
Defined.
